(** * prerequisite-finder: the crawler of [src/scrapers/scraper.py] and the
    lookup of [chatbot.py], embedded in Rocq.

    Conventions of the embedding.
    - A Python [str] is a [string] whose characters are read as the code
      points 0..255; character classes and [str.lower] are the Unicode ones
      restricted to that range.
    - A Python [set] of URLs is a [gset string]; a [dict] with string keys
      and values is a [gmap string string].
    - [main] is a state transformer over its local variables, the log of GET
      requests and the log of [json.dump] calls; the [while] loop takes fuel.
    - The libraries the script calls without defining them
      ([requests.get], [BeautifulSoup(html, 'html.parser')], [urljoin], the
      iteration order of a [set]) are parameters of the development. *)

From Stdlib Require Import Ascii.
From Stdlib Require String.
From stdpp Require Import gmap strings list.

Set Warnings "-register-all".
#[local] Arguments String.append !_ _ / : simpl nomatch.

(** ** Characters and strings *)

Module Str.

Definition code (c : ascii) : nat := nat_of_ascii c.

Definition between (lo hi : nat) (c : ascii) : bool :=
  (lo <=? code c)%nat && (code c <=? hi)%nat.

(** [\d] *)
Definition is_digit (c : ascii) : bool := between 48 57 c.

(** [[A-Z]] and [[a-z]] under [re.IGNORECASE] *)
Definition is_alpha (c : ascii) : bool := between 65 90 c || between 97 122 c.

(** [\s] and [str.isspace]: TAB..CR, FS..US, space, NEL, NBSP *)
Definition is_space (c : ascii) : bool :=
  between 9 13 c || between 28 32 c || (code c =? 133)%nat || (code c =? 160)%nat.

(** [.] without [re.DOTALL] *)
Definition not_newline (c : ascii) : bool := negb (code c =? 10)%nat.

(** [str.lower] on one character: A-Z and the upper-case letters of
    U+00C0..U+00DE (U+00D7 is the multiplication sign). *)
Definition lower_char (c : ascii) : ascii :=
  if between 65 90 c || (between 192 222 c && negb (code c =? 215)%nat)
  then ascii_of_nat (code c + 32)
  else c.

Fixpoint lower (s : string) : string :=
  match s with
  | EmptyString => EmptyString
  | String c s' => String (lower_char c) (lower s')
  end.

Fixpoint is_prefix (p s : string) : bool :=
  match p, s with
  | EmptyString, _ => true
  | String a p', String b s' => if decide (a = b) then is_prefix p' s' else false
  | String _ _, EmptyString => false
  end.

(** [needle in hay] *)
Fixpoint contains (needle hay : string) : bool :=
  is_prefix needle hay ||
  match hay with
  | EmptyString => false
  | String _ hay' => contains needle hay'
  end.

Fixpoint take (n : nat) (s : string) : string :=
  match n, s with
  | S n', String c s' => String c (take n' s')
  | _, _ => EmptyString
  end.

Fixpoint take_while (p : ascii -> bool) (s : string) : string :=
  match s with
  | String c s' => if p c then String c (take_while p s') else EmptyString
  | EmptyString => EmptyString
  end.

Fixpoint drop_while (p : ascii -> bool) (s : string) : string :=
  match s with
  | String c s' => if p c then drop_while p s' else s
  | EmptyString => EmptyString
  end.

Fixpoint rev_onto (s acc : string) : string :=
  match s with
  | EmptyString => acc
  | String c s' => rev_onto s' (String c acc)
  end.

Definition rev (s : string) : string := rev_onto s EmptyString.

Definition lstrip (s : string) : string := drop_while is_space s.
Definition rstrip (s : string) : string := rev (drop_while is_space (rev s)).

(** [s.strip()] *)
Definition strip (s : string) : string := rstrip (lstrip s).

(** [s.split(sep)] for a one-character separator *)
Fixpoint split (sep : ascii) (s : string) : list string :=
  match s with
  | EmptyString => [EmptyString]
  | String c s' =>
      if decide (c = sep) then EmptyString :: split sep s'
      else match split sep s' with
           | piece :: pieces => String c piece :: pieces
           | [] => [String c EmptyString]
           end
  end.

(** [s.replace(a, b)] for one-character [a] and [b] *)
Fixpoint replace (a b : ascii) (s : string) : string :=
  match s with
  | EmptyString => EmptyString
  | String c s' => String (if decide (c = a) then b else c) (replace a b s')
  end.

(** [sep.join(pieces)] *)
Fixpoint join (sep : string) (pieces : list string) : string :=
  match pieces with
  | [] => EmptyString
  | [p] => p
  | p :: rest => p +:+ sep +:+ join sep rest
  end.

(** Python truthiness of a [str] *)
Definition nonempty (s : string) : bool :=
  match s with EmptyString => false | String _ _ => true end.

End Str.

(** ** Regular expressions: the fragment of [re] the script uses, always
    with [re.IGNORECASE] *)

Module Re.

Inductive regex : Type :=
| Eps
| Chr (c : ascii)                    (* a literal character *)
| Cls (p : ascii -> bool)            (* a character class *)
| Cat (r1 r2 : regex)
| Alt (r1 r2 : regex)                (* r1|r2 *)
| Opt (r : regex)                    (* r? *)
| Rep (lo extra : nat) (r : regex)   (* r{lo,lo+extra} *)
| Many (p : ascii -> bool).          (* p* for a character class p *)

Fixpoint lit (w : string) : regex :=
  match w with
  | EmptyString => Eps
  | String c w' => Cat (Chr c) (lit w')
  end.

Section Matcher.
Context {A : Type}.

(** A backtracking matcher in continuation style; the first alternative
    that lets the continuation succeed wins, repetitions are greedy. *)
Definition matcher : Type := string -> (string -> option A) -> option A.

Definition or_else (x y : option A) : option A :=
  match x with Some _ => x | None => y end.

Definition one (ok : ascii -> bool) : matcher := fun s k =>
  match s with
  | String c s' => if ok c then k s' else None
  | EmptyString => None
  end.

Fixpoint at_most (m : matcher) (n : nat) : matcher := fun s k =>
  match n with
  | O => k s
  | S n' => or_else (m s (fun s' => at_most m n' s' k)) (k s)
  end.

Fixpoint exactly (m : matcher) (n : nat) : matcher := fun s k =>
  match n with
  | O => k s
  | S n' => m s (fun s' => exactly m n' s' k)
  end.

Fixpoint many (ok : ascii -> bool) (s : string) (k : string -> option A) : option A :=
  match s with
  | String c s' => if ok c then or_else (many ok s' k) (k s) else k s
  | EmptyString => k s
  end.

Fixpoint rmatch (r : regex) : matcher :=
  match r with
  | Eps => fun s k => k s
  | Chr c => one (fun x => bool_decide (Str.lower_char x = Str.lower_char c))
  | Cls p => one p
  | Cat r1 r2 => fun s k => rmatch r1 s (fun s' => rmatch r2 s' k)
  | Alt r1 r2 => fun s k => or_else (rmatch r1 s k) (rmatch r2 s k)
  | Opt r => fun s k => or_else (rmatch r s k) (k s)
  | Rep lo extra r => fun s k =>
      exactly (rmatch r) lo s (fun s' => at_most (rmatch r) extra s' k)
  | Many p => many p
  end.
End Matcher.

(** The match of [r] at the start of [s]: the matched text and what follows. *)
Definition match_here (r : regex) (s : string) : option (string * string) :=
  match rmatch r s Some with
  | Some rest => Some (Str.take (String.length s - String.length rest) s, rest)
  | None => None
  end.

(** [re.search(r, s)]: the leftmost match, as (text before, match, text after). *)
Fixpoint search (r : regex) (s : string) : option (string * string * string) :=
  match match_here r s with
  | Some (m, rest) => Some (EmptyString, m, rest)
  | None =>
      match s with
      | EmptyString => None
      | String c s' =>
          match search r s' with
          | Some (pre, m, rest) => Some (String c pre, m, rest)
          | None => None
          end
      end
  end.

(** Truthiness of [re.search(r, s)] *)
Definition found (r : regex) (s : string) : bool :=
  match search r s with Some _ => true | None => false end.

(** [re.findall(r, s)] for a pattern without groups: the successive
    non-overlapping matches, left to right. After an empty match the scan
    moves one character on. *)
Fixpoint findall_fuel (fuel : nat) (r : regex) (s : string) : list string :=
  match fuel with
  | O => []
  | S fuel' =>
      match match_here r s with
      | Some (String c m, rest) => String c m :: findall_fuel fuel' r rest
      | Some (EmptyString, _) =>
          match s with
          | EmptyString => [EmptyString]
          | String _ s' => EmptyString :: findall_fuel fuel' r s'
          end
      | None =>
          match s with
          | EmptyString => []
          | String _ s' => findall_fuel fuel' r s'
          end
      end
  end.

Definition findall (r : regex) (s : string) : list string :=
  findall_fuel (S (String.length s)) r s.

(** What a pattern denotes, independently of the matcher. *)
Fixpoint power (L : string -> Prop) (n : nat) (w : string) : Prop :=
  match n with
  | O => w = EmptyString
  | S n' => exists u v, w = u +:+ v /\ L u /\ power L n' v
  end.

Fixpoint all_chars (p : ascii -> bool) (w : string) : Prop :=
  match w with
  | EmptyString => True
  | String c w' => p c = true /\ all_chars p w'
  end.

Fixpoint matches (r : regex) (w : string) : Prop :=
  match r with
  | Eps => w = EmptyString
  | Chr c => exists x, w = String x EmptyString /\ Str.lower_char x = Str.lower_char c
  | Cls p => exists x, w = String x EmptyString /\ p x = true
  | Cat r1 r2 => exists u v, w = u +:+ v /\ matches r1 u /\ matches r2 v
  | Alt r1 r2 => matches r1 w \/ matches r2 w
  | Opt r => w = EmptyString \/ matches r w
  | Rep lo extra r => exists n, lo <= n <= lo + extra /\ power (matches r) n w
  | Many p => all_chars p w
  end.

(** [s] has a substring that [r] matches. *)
Definition occurs (r : regex) (s : string) : Prop :=
  exists pre m post, s = pre +:+ m +:+ post /\ matches r m.

(** Whatever [m] accepts starts with a word of [L], and the continuation
    accepted the rest. *)
Definition sound {A} (m : @matcher A) (L : string -> Prop) : Prop :=
  forall s k x, m s k = Some x ->
    exists w rest, s = w +:+ rest /\ L w /\ k rest = Some x.

(** [m] accepts as soon as a word of [L] is followed by something the
    continuation accepts. *)
Definition complete {A} (m : @matcher A) (L : string -> Prop) : Prop :=
  forall w rest k, L w -> is_Some (k rest) -> is_Some (m (w +:+ rest) k).

(** [tokens] are successive matches of [r] in [s], left to right and
    without overlap: before the first, between two of them and after the
    last, nothing matches. *)
Inductive tokens_of (r : regex) : string -> list string -> Prop :=
| tokens_none (s : string) : ~ occurs r s -> tokens_of r s []
| tokens_next (gap m rest : string) (tokens : list string) :
    ~ occurs r gap -> matches r m -> tokens_of r rest tokens ->
    tokens_of r (gap +:+ m +:+ rest) (m :: tokens).

End Re.

(** ** The patterns of [scraper.py] *)

Module Pat.
Import Re.

Definition digit : regex := Cls Str.is_digit.
Definition letter : regex := Cls Str.is_alpha.
Definition space : regex := Cls Str.is_space.

(** [COURSE_LINK_KEYWORDS]; the last one is [\d{2,4}[a-z]?-]. *)
Definition COURSE_LINK_KEYWORDS : list regex :=
  [ lit "courses/"; lit "subjects/"; lit "syllabus/"; lit "curriculum/";
    lit "program/"; lit "academic/"; lit "course-detail/";
    Cat (Rep 2 2 digit) (Cat (Opt letter) (Chr "-")) ].

(** [\d{2,4}[a-z]?] *)
Definition code_like : regex := Cat (Rep 2 2 digit) (Opt letter).

(** [#|javascript|mailto] *)
Definition unwanted : regex := Alt (lit "#") (Alt (lit "javascript") (lit "mailto")).

(** [[A-Z]{2,4}\s?\d{2,4}[A-Z]?] *)
Definition course_code : regex :=
  Cat (Rep 2 2 letter) (Cat (Opt space) (Cat (Rep 2 2 digit) (Opt letter))).

(** The pattern of the full-text search is [prerequisite[s]?:?] followed by
    any white space and by one group, any characters up to the end of the
    line. This is the part before the group; the group matches whatever
    follows, so it never makes this part backtrack. *)
Definition prereq_intro : regex :=
  Cat (lit "prerequisite") (Cat (Opt (Chr "s")) (Cat (Opt (Chr ":")) (Many Str.is_space))).

End Pat.

(** ** [urllib.parse.urlparse(url).netloc]

    The steps of [urlsplit] that decide the network location: leading
    C0 controls and spaces are dropped, TAB, CR and LF are removed, a
    scheme is split off at the first colon, and after [//] the location runs
    up to the first of [/], [?], [#]. The validation of bracketed hosts,
    which raises [ValueError], is left out. *)

Module Url.

Definition scheme_char (c : ascii) : bool :=
  Str.is_alpha c || Str.is_digit c ||
  bool_decide (c = "+"%char) || bool_decide (c = "-"%char) || bool_decide (c = "."%char).

Fixpoint all_ok (p : ascii -> bool) (s : string) : bool :=
  match s with
  | EmptyString => true
  | String c s' => p c && all_ok p s'
  end.

Fixpoint remove (p : ascii -> bool) (s : string) : string :=
  match s with
  | EmptyString => EmptyString
  | String c s' => if p c then remove p s' else String c (remove p s')
  end.

(** [url.find(':')], as the text before and after the first colon *)
Fixpoint cut_colon (s : string) : option (string * string) :=
  match s with
  | EmptyString => None
  | String c s' =>
      if decide (c = ":"%char) then Some (EmptyString, s')
      else match cut_colon s' with
           | Some (before, after) => Some (String c before, after)
           | None => None
           end
  end.

Definition clean (url : string) : string :=
  remove (fun c => bool_decide (c = "009"%char) || bool_decide (c = "010"%char)
                   || bool_decide (c = "013"%char))
         (Str.drop_while (fun c => (Str.code c <=? 32)%nat) url).

Definition after_scheme (url : string) : string :=
  match cut_colon url with
  | Some (String c before, after) =>
      if Str.is_alpha c && all_ok scheme_char (String c before) then after else url
  | _ => url
  end.

(** [urlparse(url).scheme] *)
Definition scheme (url : string) : string :=
  match cut_colon (clean url) with
  | Some (String c before, _) =>
      if Str.is_alpha c && all_ok scheme_char (String c before)
      then Str.lower (String c before) else EmptyString
  | _ => EmptyString
  end.

Definition netloc (url : string) : string :=
  match after_scheme (clean url) with
  | String "/" (String "/" rest) =>
      Str.take_while (fun c => negb (bool_decide (c = "/"%char) || bool_decide (c = "?"%char)
                                     || bool_decide (c = "#"%char))) rest
  | _ => EmptyString
  end.

End Url.

(** ** The parse tree [BeautifulSoup] hands to the script *)

Module Soup.

Inductive node : Type :=
| Text (s : string)
| Tag (name : string) (attrs : gmap string string) (children : list node).

Definition name_of (n : node) : string :=
  match n with Tag name _ _ => name | Text _ => EmptyString end.

Definition is_tag (n : node) : bool :=
  match n with Tag _ _ _ => true | Text _ => false end.

Definition attr (key : string) (n : node) : option string :=
  match n with Tag _ attrs _ => attrs !! key | Text _ => None end.

(** The elements below [n] in document order, each with its next siblings. *)
Fixpoint descendants (n : node) : list (node * list node) :=
  match n with
  | Text _ => []
  | Tag _ _ children =>
      (fix walk (l : list node) : list (node * list node) :=
         match l with
         | [] => []
         | c :: l' =>
             (if is_tag c then [(c, l')] else []) ++ descendants c ++ walk l'
         end) children
  end.

(** The strings below [n] in document order. *)
Fixpoint strings (n : node) : list string :=
  match n with
  | Text s => [s]
  | Tag _ _ children =>
      (fix walk (l : list node) : list string :=
         match l with
         | [] => []
         | c :: l' => strings c ++ walk l'
         end) children
  end.

(** A parsed document is the list of its top-level nodes. *)
Definition soup : Type := list node.

Definition document (doc : soup) : node := Tag "[document]" ∅ doc.

(** [tag.get_text()] *)
Definition get_text (n : node) : string := Str.join "" (strings n).

(** [tag.get_text(separator=' ', strip=True)] *)
Definition get_text_stripped (n : node) : string :=
  Str.join " " (filter (fun s => Str.nonempty s = true) (map Str.strip (strings n))).

(** [soup.find(p)], together with the next siblings of what it finds *)
Definition find (p : node -> bool) (doc : soup) : option (node * list node) :=
  head (filter (fun e => p (fst e) = true) (descendants (document doc))).

(** [soup.find_all(p)] *)
Definition find_all (p : node -> bool) (doc : soup) : list node :=
  filter (fun n => p n = true) (map fst (descendants (document doc))).

Definition named (names : list string) (n : node) : bool :=
  bool_decide (name_of n ∈ names).

(** [tag.find_next_sibling(names)], from the next siblings of [tag] *)
Definition find_next_sibling (names : list string) (siblings : list node) : option node :=
  head (filter (fun n => (is_tag n && named names n) = true) siblings).

End Soup.

(** ** [src/scrapers/scraper.py] *)

Module Scraper.
Import Soup.

Abbreviation dict := (gmap string string).

(** What [requests.get(url, timeout=10)] does: it raises a
    [RequestException] (no connection, timeout, bad URL, too many redirects)
    or returns a response with a status code and a body. An answer with a
    status 1xx, 204 or 304 comes with an empty body. A call that raises
    something else, which the [except] clause of line 66 would let through,
    is not among the calls described here. *)
Inductive response : Type :=
| Failed
| Http (status : nat) (text : string).

Inductive exn : Type :=
| KeyError (key : string).

Inductive result (A : Type) : Type :=
| Done (a : A)
| Raised (e : exn)
| OutOfFuel.
Arguments Done {A} a.
Arguments Raised {A} e.
Arguments OutOfFuel {A}.

(** The local variables of [main], the GET requests issued so far (oldest
    first) and the documents [json.dump] has written to [OUTPUT_FILE]. *)
Record state : Type := State {
  all_prereqs : list dict;
  queue : list string;
  visited_urls : gset string;
  course_urls_to_scrape : gset string;
  requested : list string;
  dumped : list (list dict)
}.

Definition M (A : Type) : Type := state -> result A * state.

Definition ret {A} (a : A) : M A := fun st => (Done a, st).

Definition bind {A B} (m : M A) (k : A -> M B) : M B := fun st =>
  match m st with
  | (Done a, st') => k a st'
  | (Raised e, st') => (Raised e, st')
  | (OutOfFuel, st') => (OutOfFuel, st')
  end.

Definition raise {A} (e : exn) : M A := fun st => (Raised e, st).
Definition out_of_fuel {A} : M A := fun st => (OutOfFuel, st).
Definition gets {A} (f : state -> A) : M A := fun st => (Done (f st), st).
Definition modify (f : state -> state) : M unit := fun st => (Done tt, f st).

Notation "'let*' x ':=' m 'in' k" := (bind m (fun x => k))
  (at level 10, x name, m at level 100, k at level 200).
Notation "m ;;; k" := (bind m (fun _ => k))
  (at level 100, k at level 200, right associativity).

Fixpoint for_each {X} (xs : list X) (body : X -> M unit) : M unit :=
  match xs with
  | [] => ret tt
  | x :: xs' => body x ;;; for_each xs' body
  end.

(** [d[key]] *)
Definition subscript (d : dict) (key : string) : M string :=
  match d !! key with
  | Some v => ret v
  | None => raise (KeyError key)
  end.

(** Python truthiness of a value that is [None] or a [str] *)
Definition truthy (t : option string) : bool :=
  match t with Some s => Str.nonempty s | None => false end.

Definition set_queue (q : list string) (st : state) : state :=
  State (all_prereqs st) q (visited_urls st) (course_urls_to_scrape st)
        (requested st) (dumped st).
Definition enqueue (url : string) (st : state) : state :=
  set_queue (queue st ++ [url]) st.
Definition mark_visited (url : string) (st : state) : state :=
  State (all_prereqs st) (queue st) ({[url]} ∪ visited_urls st)
        (course_urls_to_scrape st) (requested st) (dumped st).
Definition add_candidate (url : string) (st : state) : state :=
  State (all_prereqs st) (queue st) (visited_urls st)
        ({[url]} ∪ course_urls_to_scrape st) (requested st) (dumped st).
Definition log_request (url : string) (st : state) : state :=
  State (all_prereqs st) (queue st) (visited_urls st) (course_urls_to_scrape st)
        (requested st ++ [url]) (dumped st).
Definition append_record (d : dict) (st : state) : state :=
  State (all_prereqs st ++ [d]) (queue st) (visited_urls st)
        (course_urls_to_scrape st) (requested st) (dumped st).
Definition json_dump (doc : list dict) (st : state) : state :=
  State (all_prereqs st) (queue st) (visited_urls st) (course_urls_to_scrape st)
        (requested st) (dumped st ++ [doc]).

Definition STARTING_URLS : list string :=
  [ "https://ocw.mit.edu/courses/find-by-topic/#cat=engineering&subcat=computer-science";
    "https://ocw.mit.edu/courses/find-by-topic/#cat=science&subcat=mathematics";
    "https://onlinecourses.swayam2.ac.in/course_category_list";
    "https://www.bmsce.ac.in/department/computer-science-and-engineering/course-curriculum" ].

(** The [try] block of [get_html]: [raise_for_status] raises [HTTPError], a
    [RequestException], for the statuses 400..599; the [except] clause turns
    every [RequestException] into [None]. *)
Definition text_or_none (r : response) : option string :=
  match r with
  | Failed => None
  | Http status text =>
      if (400 <=? status)%nat && (status <? 600)%nat then None else Some text
  end.

Section Program.
(** The web, the HTML parser, [urljoin] and the order in which a [for]
    loop goes through a [set]. The three library calls are taken where they
    return: a URL that [urljoin] rejects with [ValueError], markup that the
    parser rejects, or an exception of [requests.get] that is no
    [RequestException] ends the real [main] on the spot, before line 199,
    and such a run is no run of this model. *)
Variable requests_get : string -> response.
Variable parse : string -> soup.
Variable urljoin : string -> string -> string.
Variable iter : gset string -> list string.

Definition get_html (url : string) : M (option string) :=
  modify (log_request url) ;;;
  ret (text_or_none (requests_get url)).

Definition relevant (url : string) : bool :=
  existsb (fun keyword => Re.found keyword url) Pat.COURSE_LINK_KEYWORDS.

Definition add_if_course_link (base_url : string) (links : gset string) (link : node)
  : gset string :=
  match attr "href" link with
  | Some href =>
      let absolute_url := urljoin base_url href in
      if relevant absolute_url then
        if Re.found Pat.code_like absolute_url then {[absolute_url]} ∪ links
        else if negb (Re.found Pat.unwanted absolute_url) then {[absolute_url]} ∪ links
        else links
      else links
  | None => links
  end.

Definition find_course_links (html base_url : string) : gset string :=
  foldl (add_if_course_link base_url) ∅
    (find_all (fun n => named ["a"] n && bool_decide (is_Some (attr "href" n)))
              (parse html)).

Definition prereq_heading (n : node) : bool :=
  named ["h2"; "h3"; "h4"; "strong"] n
  && Str.contains "prerequisite" (Str.lower (get_text n)).

(** Lines 119-124: the text of the block after the heading. *)
Definition heading_statement (doc : soup) : option string :=
  match find prereq_heading doc with
  | Some (_, siblings) =>
      match find_next_sibling ["p"; "ul"; "div"] siblings with
      | Some next_element => Some (get_text_stripped next_element)
      | None => None
      end
  | None => None
  end.

(** Lines 128-132: the search through the whole text. *)
Definition fulltext_statement (doc : soup) : option string :=
  match Re.search Pat.prereq_intro (get_text (document doc)) with
  | Some (_, _, rest) =>
      Some (Str.strip (hd EmptyString
              (Str.split "." (Str.take_while Str.not_newline rest))))
  | None => None
  end.

Definition prereq_text (doc : soup) : option string :=
  let from_heading := heading_statement doc in
  if truthy from_heading then from_heading
  else match fulltext_statement doc with
       | Some t => Some t
       | None => from_heading
       end.

Definition course_title (url : string) (doc : soup) : string :=
  match find (named ["h1"; "h2"; "h3"]) doc with
  | Some (tag, _) => Str.strip (get_text tag)
  | None =>
      match find (named ["title"]) doc with
      | Some (tag, _) => Str.strip (get_text tag)
      | None =>
          Str.strip (Str.replace "_" " " (Str.replace "-" " "
            (List.last (Str.split "/" url) EmptyString)))
      end
  end.

(** Lines 142-147. *)
Definition prereqs_of (prereq_text : option string) : string :=
  if truthy prereq_text then
    let text := default EmptyString prereq_text in
    match Re.findall Pat.course_code text with
    | [] => text
    | course_codes => Str.join ", " course_codes
    end
  else "Not specified".

Definition record (title prereqs source : string) : dict :=
  <["title" := title]> (<["prerequisites" := prereqs]> (<["source" := source]> ∅)).

Definition extract (url : string) (doc : soup) : dict :=
  record (course_title url doc) (prereqs_of (prereq_text doc)) url.

Definition scrape_prerequisites (url : string) : M (option dict) :=
  let* html := get_html url in
  if truthy html then ret (Some (extract url (parse (default EmptyString html))))
  else ret None.

(** Lines 177-185, the body of [for link in found_links]. *)
Definition discover (current_url link : string) : M unit :=
  let* visited := gets visited_urls in
  if decide (link ∈ visited) then ret tt
  else
    modify (mark_visited link) ;;;
    (if decide (Url.netloc link = Url.netloc current_url)
     then modify (enqueue link) else ret tt) ;;;
    (if Re.found Pat.code_like link
     then modify (add_candidate link) else ret tt).

(** Lines 173-185, what is done with one dequeued URL. *)
Definition crawl_page (current_url : string) : M unit :=
  let* html := get_html current_url in
  if truthy html then
    for_each (iter (find_course_links (default EmptyString html) current_url))
             (discover current_url)
  else ret tt.

(** Lines 169-185, [while queue]. *)
Fixpoint crawl (fuel : nat) : M unit :=
  let* q := gets queue in
  match q with
  | [] => ret tt
  | current_url :: rest =>
      match fuel with
      | O => out_of_fuel
      | S fuel' =>
          modify (set_queue rest) ;;; crawl_page current_url ;;; crawl fuel'
      end
  end.

(** The links the traversal goes through on the page behind [url]. *)
Definition links_of (url : string) : list string :=
  let html := text_or_none (requests_get url) in
  if truthy html then iter (find_course_links (default EmptyString html) url) else [].

(** The state after one turn of the loop, which takes [url] from a queue
    of which [rest] remains. *)
Definition visit (url : string) (rest : list string) (st : state) : state :=
  foldl (fun st' link => (discover url link st').2)
        (log_request url (set_queue rest st)) (links_of url).

(** Lines 191-197, the body of [for url in course_urls_to_scrape]. The
    two subscripts after the append are those of the f-string of the
    [print]. *)
Definition scrape_page (url : string) : M unit :=
  let* data := scrape_prerequisites url in
  match data with
  | Some d =>
      if bool_decide (d ≠ ∅) && truthy (d !! "title") then
        let* prerequisites := subscript d "prerequisites" in
        if bool_decide (prerequisites ≠ "Not specified") then
          modify (append_record d) ;;;
          let* _ := subscript d "title" in
          let* _ := subscript d "prereqs" in
          ret tt
        else ret tt
      else ret tt
  | None => ret tt
  end.

(** What [scrape_prerequisites] returns for [url]. *)
Definition record_of (url : string) : option dict :=
  let html := text_or_none (requests_get url) in
  if truthy html then Some (extract url (parse (default EmptyString html))) else None.

(** Lines 190-197. *)
Definition scrape_all : M unit :=
  let* urls := gets course_urls_to_scrape in
  for_each (iter urls) scrape_page.

(** Lines 199-200. *)
Definition save : M unit :=
  let* records := gets all_prereqs in
  modify (json_dump records).

Definition initial (starting_urls : list string) : state :=
  State [] starting_urls (list_to_set starting_urls) ∅ [] [].

(** [main] with the module constant [STARTING_URLS] as an argument. *)
Definition main_from (starting_urls : list string) (fuel : nat) : result unit * state :=
  (crawl fuel ;;; scrape_all ;;; save) (initial starting_urls).

Definition main (fuel : nat) : result unit * state :=
  main_from STARTING_URLS fuel.
End Program.

End Scraper.

(** ** [chatbot.py] *)

Module Chatbot.
Import Scraper.

(** [course.get(key, fallback)] *)
Definition get (course : dict) (key fallback : string) : string :=
  default fallback (course !! key).

Definition found_message (title prereqs source : string) : string :=
  "The prerequisites for '" +:+ title +:+ "' are: " +:+ prereqs
  +:+ ". (Source: " +:+ source +:+ ")".

Definition not_found_message (course_name : string) : string :=
  "Sorry, I could not find a course named '" +:+ course_name +:+ "' in the database.".

(** The answer, or the [KeyError] of [course["title"]]. *)
Fixpoint find_prerequisites (course_name : string) (data : list dict) : exn + string :=
  match data with
  | [] => inr (not_found_message course_name)
  | course :: rest =>
      match course !! "title" with
      | None => inl (KeyError "title")
      | Some title =>
          if decide (Str.lower title = Str.lower course_name) then
            inr (found_message title
                   (get course "prerequisites" "Not specified")
                   (get course "source" "Unknown"))
          else find_prerequisites course_name rest
      end
  end.

(** The stored title equals the query up to case. *)
Definition same_title (course_name : string) (course : dict) : Prop :=
  exists title, course !! "title" = Some title /\ Str.lower title = Str.lower course_name.

End Chatbot.

(** ** The wording of the specification, where it is compared with the code *)

Module Spec.
Import Soup Scraper.

(** The domain of a URL as the specification has it: scheme and host. *)
Definition domain (url : string) : string * string := (Url.scheme url, Url.netloc url).

(** [marker] occurs in [url], in any mix of upper and lower case. *)
Definition contains_ci (marker url : string) : Prop :=
  exists pre m post, url = pre +:+ m +:+ post /\ Str.lower m = marker.

(** The URL has a fragment marker, [javascript] or [mailto] in it. *)
Definition has_marker (url : string) : Prop :=
  contains_ci "#" url \/ contains_ci "javascript" url \/ contains_ci "mailto" url.

(** The tokens in order of first appearance, identical ones collapsed. *)
Fixpoint unseen (seen tokens : list string) : list string :=
  match tokens with
  | [] => []
  | t :: rest =>
      if decide (t ∈ seen) then unseen seen rest else t :: unseen (t :: seen) rest
  end.

Definition first_appearances (tokens : list string) : list string := unseen [] tokens.

(** Everything up to the first full stop. *)
Definition up_to_full_stop (text : string) : string :=
  Str.take_while (fun c => negb (bool_decide (c = "."%char))) text.

(** Everything up to the first full stop or the end of the line. *)
Definition up_to_stop_or_line_end (text : string) : string :=
  Str.take_while (fun c => Str.not_newline c && negb (bool_decide (c = "."%char))) text.

(** A status code outside 200..299. *)
Definition non_2xx (status : nat) : Prop := ~ (200 <= status < 300).

(** A record that may be written: its title is not empty and its
    prerequisites are not the sentinel. *)
Definition emittable (d : dict) : Prop :=
  truthy (d !! "title") = true /\ d !! "prerequisites" <> Some "Not specified".

(** The hyperlinks of a page, resolved against its URL. *)
Definition hyperlink (parse : string -> soup) (urljoin : string -> string -> string)
    (html base_url url : string) : Prop :=
  exists link href,
    link ∈ find_all (fun n => named ["a"] n && bool_decide (is_Some (attr "href" n)))
                    (parse html)
    /\ attr "href" link = Some href /\ url = urljoin base_url href.

(** The URL matches one of [COURSE_LINK_KEYWORDS]. *)
Definition has_keyword (url : string) : Prop :=
  exists keyword, keyword ∈ Pat.COURSE_LINK_KEYWORDS /\ Re.occurs keyword url.

(** A [for] loop over a set visits each member once and nothing else. *)
Definition enumerates (iter : gset string -> list string) : Prop :=
  forall X : gset string, NoDup (iter X) /\ forall x, x ∈ iter X <-> x ∈ X.

(** The fetch of a URL fails: [requests.get] raises, or the status is one
    that [raise_for_status] raises for. *)
Definition fetch_fails (r : response) : Prop :=
  r = Failed \/ exists status text, r = Http status text /\ 400 <= status < 600.

(** What is queued or was requested is visited, and nothing is there twice. *)
Definition once (st : state) : Prop :=
  NoDup (requested st ++ queue st)
  /\ forall url, url ∈ requested st ++ queue st -> url ∈ visited_urls st.

(** The seeds are visited and none of them is a candidate. *)
Definition seeds_apart (seeds : list string) (st : state) : Prop :=
  (forall s, s ∈ seeds -> s ∈ visited_urls st)
  /\ (forall s, s ∈ seeds -> s ∉ course_urls_to_scrape st).

(** A visited URL that looks like a course page is a candidate, unless it
    is a seed. *)
Definition coded_are_candidates (seeds : list string) (st : state) : Prop :=
  forall url, url ∈ visited_urls st -> Re.found Pat.code_like url = true ->
    url ∈ course_urls_to_scrape st \/ url ∈ seeds.

(** The links of the pages requested so far are visited. *)
Definition links_are_visited (links_of : string -> list string) (st : state) : Prop :=
  forall page link, page ∈ requested st -> link ∈ links_of page ->
    link ∈ visited_urls st.

(** [url] has the network location of a seed. *)
Definition at_seed_location (seeds : list string) (url : string) : Prop :=
  exists s, s ∈ seeds /\ Url.netloc url = Url.netloc s.

End Spec.

(** ** Concrete webs and documents

    Each page is given with the tree [html.parser] builds for it. All
    links are absolute, for which [urljoin] returns the link itself. *)

Module World.
Import Soup Scraper.

Definition urljoin (base_url href : string) : string := href.

Definition nl : string := String "010" EmptyString.

Definition curriculum : string :=
  "https://www.bmsce.ac.in/department/computer-science-and-engineering/course-curriculum".
Definition algorithms : string := "https://www.bmsce.ac.in/courses/cs101".
Definition plain_http : string := "http://www.bmsce.ac.in/courses/".
Definition anchored : string := "https://www.bmsce.ac.in/courses/cs101#syllabus".
Definition top_of_page : string := "https://www.bmsce.ac.in/courses/#top".

Definition curriculum_html : string :=
  "<a href='https://www.bmsce.ac.in/courses/cs101'>Algorithms</a>".
Definition algorithms_html : string :=
  "<h1>Intro to Algorithms</h1><h2>Prerequisites</h2><p>CS 101, MATH 201</p>".
Definition offsite_html : string :=
  "<a href='http://www.bmsce.ac.in/courses/'>All courses</a>".
Definition anchors_html : string :=
  "<a href='https://www.bmsce.ac.in/courses/cs101#syllabus'>Syllabus</a>"
  +:+ "<a href='https://www.bmsce.ac.in/courses/#top'>Top</a>".
Definition bare_html : string := "<h1>Seminar</h1><p>Open to all.</p>".
Definition data_structures : string := "https://www.bmsce.ac.in/courses/cs102".
Definition two_courses_html : string :=
  "<a href='https://www.bmsce.ac.in/courses/cs101'>Algorithms</a>"
  +:+ "<a href='https://www.bmsce.ac.in/courses/cs102'>Data Structures</a>".
Definition structures_html : string :=
  "<h1>Data Structures</h1><h2>Prerequisites</h2><p>CS 101</p>".

Definition algorithms_doc : soup :=
  [ Tag "h1" ∅ [Text "Intro to Algorithms"];
    Tag "h2" ∅ [Text "Prerequisites"];
    Tag "p" ∅ [Text "CS 101, MATH 201"] ].

Definition parse (html : string) : soup :=
  if decide (html = curriculum_html) then
    [Tag "a" {["href" := algorithms]} [Text "Algorithms"]]
  else if decide (html = algorithms_html) then algorithms_doc
  else if decide (html = offsite_html) then
    [Tag "a" {["href" := plain_http]} [Text "All courses"]]
  else if decide (html = anchors_html) then
    [ Tag "a" {["href" := anchored]} [Text "Syllabus"];
      Tag "a" {["href" := top_of_page]} [Text "Top"] ]
  else if decide (html = bare_html) then
    [Tag "h1" ∅ [Text "Seminar"]; Tag "p" ∅ [Text "Open to all."]]
  else if decide (html = two_courses_html) then
    [ Tag "a" {["href" := algorithms]} [Text "Algorithms"];
      Tag "a" {["href" := data_structures]} [Text "Data Structures"] ]
  else if decide (html = structures_html) then
    [ Tag "h1" ∅ [Text "Data Structures"];
      Tag "h2" ∅ [Text "Prerequisites"];
      Tag "p" ∅ [Text "CS 101"] ]
  else [].

(** The curriculum page links to one course page, which states its
    prerequisites; nothing else answers. *)
Definition catalog (url : string) : response :=
  if decide (url = curriculum) then Http 200 curriculum_html
  else if decide (url = algorithms) then Http 200 algorithms_html
  else Failed.

(** The curriculum page links to two course pages, and each states its
    prerequisites. *)
Definition two_courses (url : string) : response :=
  if decide (url = curriculum) then Http 200 two_courses_html
  else if decide (url = algorithms) then Http 200 algorithms_html
  else if decide (url = data_structures) then Http 200 structures_html
  else Failed.

(** The curriculum page, served over https, links to a page of the same
    host over http. *)
Definition mixed_scheme (url : string) : response :=
  if decide (url = curriculum) then Http 200 offsite_html
  else Failed.

(** The course page behind the curriculum page says nothing about
    prerequisites. *)
Definition silent (url : string) : response :=
  if decide (url = curriculum) then Http 200 curriculum_html
  else if decide (url = algorithms) then Http 200 bare_html
  else Failed.

(** Nothing answers. *)
Definition offline (url : string) : response := Failed.

(** The curriculum page is answered with 300 Multiple Choices, the list of
    links as its body and no [Location] header; [requests] follows a
    redirect only for 301, 302, 303, 307 and 308 with a [Location], so it
    hands this answer over as it is. *)
Definition multiple_choices (url : string) : response :=
  if decide (url = curriculum) then Http 300 curriculum_html else Failed.

(** A heading followed by an empty paragraph. *)
Definition empty_block_doc : soup :=
  [ Tag "h2" ∅ [Text "Prerequisites"];
    Tag "p" ∅ [];
    Tag "p" ∅ [Text "CS 101 required. Ask the office."] ].

(** The statement runs over a line break before its full stop. *)
Definition two_lines_doc : soup :=
  [ Text ("Prerequisites: CS 101" +:+ nl +:+ "or MATH 201. Ask the office.") ].

(** Two stored courses whose titles differ in case only. *)
Definition twice : list dict :=
  [ record "Intro To Algorithms" "CS 101" "https://a.edu/courses/algo-101";
    record "intro to algorithms" "MATH 201" "https://b.edu/courses/algo-201" ].

(** Seeds of which one looks like a course page and is linked from the other. *)
Definition coded_seeds : list string := [algorithms; curriculum].

End World.

(** ** The session of [chatbot.py] *)

Module Session.
Import Scraper Chatbot.

(** [os.path.join("data", "prereqs.json")] *)
Definition DATA_FILE : string := "data/prereqs.json".

(** How [run_chatbot] ends: it returns, an exception of the lookup gets
    out of it, or [input] finds the input exhausted and raises [EOFError]. *)
Inductive ending : Type :=
| Returned
| Crashed (e : exn)
| EndOfInput.

(** [load_data], given what the data file holds, if it exists: what is
    printed and what is returned. *)
Definition load_data (file : option (list dict)) : list string * option (list dict) :=
  match file with
  | None =>
      ([ "Error: Data file not found at " +:+ DATA_FILE;
         "Please run scraper.py first to generate the data." ], None)
  | Some data => ([], Some data)
  end.

Definition course_line (course : dict) : string :=
  "- " +:+ get course "title" "Unknown Title"
  +:+ " (Source: " +:+ get course "source" "Unknown Source" +:+ ")".

(** What [list_all_courses] prints. *)
Definition list_all_courses (data : list dict) : list string :=
  (String "010" "--- Available Courses ---") ::
  match data with
  | [] => ["No courses found in the database."]
  | _ => map course_line data ++ ["-------------------------"]
  end.

Definition prompt : string := String "010" "Enter a course name or command: ".

(** The loop of lines 85-99 over the lines typed: what is written, how the
    session ends, and the lines left unread. *)
Fixpoint converse (course_data : list dict) (inputs : list string)
  : list string * ending * list string :=
  match inputs with
  | [] => ([prompt], EndOfInput, [])
  | line :: rest =>
      let user_input := Str.strip line in
      if bool_decide (Str.lower user_input ∈ ["exit"; "quit"]) then
        ([prompt; "Goodbye!"], Returned, rest)
      else
        let continue (printed : list string) :=
          let '(out, e, unread) := converse course_data rest in
          (prompt :: printed ++ out, e, unread) in
        if decide (Str.lower user_input = "list") then
          continue (list_all_courses course_data)
        else if negb (Str.nonempty user_input) then
          continue ["Please enter a course name or command."]
        else
          match find_prerequisites user_input course_data with
          | inr response => continue [response]
          | inl e => ([prompt], Crashed e, rest)
          end
  end.

(** [run_chatbot]. *)
Definition run_chatbot (file : option (list dict)) (inputs : list string)
  : list string * ending * list string :=
  let '(errors, course_data) := load_data file in
  match course_data with
  | None | Some [] => ("Loading course data..." :: errors, Returned, inputs)
  | Some data =>
      let '(out, e, unread) := converse data inputs in
      ("Loading course data..." :: errors
         ++ [ "Data loaded successfully. Ask me about course prerequisites!";
              "You can also type 'list' to see all available courses or 'exit' to end the session." ]
         ++ out, e, unread)
  end.

(** A line that is neither blank nor a command. *)
Definition is_query (line : string) : Prop :=
  Str.strip line <> EmptyString
  /\ Str.lower (Str.strip line) ∉ ["exit"; "quit"; "list"].

(** The file a run of [main] leaves behind, when the data file did not
    exist before: what the last [json.dump] wrote. [OUTPUT_FILE] of the
    scraper and [DATA_FILE] of the chatbot name the same file when the
    chatbot is started in the directory above [src]. *)
Definition file_after (st : state) : option (list dict) := last (dumped st).

End Session.

(** ** The prerequisites cell of [process_courses.py], lines 57-67 *)

Module Converter.
Import Re.

(** A literal without [re.IGNORECASE]. *)
Fixpoint exact (w : string) : regex :=
  match w with
  | EmptyString => Eps
  | String c w' => Cat (Cls (fun x => bool_decide (x = c))) (exact w')
  end.

Definition comma_or_semicolon (c : ascii) : bool :=
  bool_decide (c = ","%char) || bool_decide (c = ";"%char).

(** A comma or semicolon with the white space after it, or the word
    [and] between two spaces. *)
Definition separators : regex :=
  Alt (Cat (Cls comma_or_semicolon) (Many Str.is_space)) (exact " and ").

(** [re.split(r, s)] for a pattern without groups that matches no empty
    string: the text before, between and after the successive matches. *)
Fixpoint split_fuel (fuel : nat) (r : regex) (s : string) : list string :=
  match fuel with
  | O => [s]
  | S fuel' =>
      match match_here r s with
      | Some (String _ _, rest) => EmptyString :: split_fuel fuel' r rest
      | _ =>
          match s with
          | EmptyString => [EmptyString]
          | String c s' =>
              match split_fuel fuel' r s' with
              | piece :: pieces => String c piece :: pieces
              | [] => [String c EmptyString]
              end
          end
      end
  end.

Definition split (r : regex) (s : string) : list string :=
  split_fuel (S (String.length s)) r s.

(** Lines 57 and 64-67, from [str(row['Prerequisites'])]. *)
Definition prerequisites_of (cell : string) : list string :=
  let prerequisites_raw := Str.strip cell in
  if decide (Str.lower prerequisites_raw = "nan") then []
  else filter (fun p => Str.nonempty p = true)
              (map Str.strip (split separators prerequisites_raw)).

(** The pieces a pattern cuts a text into: no piece has a match in it. *)
Inductive pieces_of (r : regex) : string -> list string -> Prop :=
| pieces_last (s : string) : ~ occurs r s -> pieces_of r s [s]
| pieces_next (gap m rest : string) (pieces : list string) :
    ~ occurs r gap -> matches r m -> pieces_of r rest pieces ->
    pieces_of r (gap +:+ m +:+ rest) (gap :: pieces).

End Converter.

(** ** Words for the further facts *)

Module More.
Import Scraper.

(** Two digits side by side. *)
Definition adjacent_digits (s : string) : Prop :=
  exists pre d1 d2 post,
    s = pre +:+ String d1 (String d2 post)
    /\ Str.is_digit d1 = true /\ Str.is_digit d2 = true.

(** Some character of [s] satisfies [p]. *)
Fixpoint any_char (p : ascii -> bool) (s : string) : bool :=
  match s with
  | EmptyString => false
  | String c s' => p c || any_char p s'
  end.

(** [part] is a piece of [s]. *)
Definition substring (part s : string) : Prop :=
  exists pre post, s = pre +:+ part +:+ post.

(** [url] is a seed, or a link found on one of [pages] that has the
    network location of that page. *)
Definition explained (links_of : string -> list string) (seeds pages : list string)
    (url : string) : Prop :=
  url ∈ seeds
  \/ exists page, page ∈ pages /\ url ∈ links_of page
                  /\ Url.netloc url = Url.netloc page.

(** The traversal follows links only: every requested URL is explained by
    the pages requested before it, and every queued URL by the pages
    requested. *)
Definition follows_links (links_of : string -> list string)
    (seeds : list string) (st : state) : Prop :=
  (forall before url after,
     requested st = before ++ url :: after -> explained links_of seeds before url)
  /\ (forall url, url ∈ queue st -> explained links_of seeds (requested st) url).

(** Every candidate is a link of a requested page, looks like a course
    page and is not a seed; the seeds are visited. *)
Definition candidates_are_links (links_of : string -> list string)
    (seeds : list string) (st : state) : Prop :=
  (forall s, s ∈ seeds -> s ∈ visited_urls st)
  /\ (forall url, url ∈ course_urls_to_scrape st ->
        (url ∉ seeds) /\ Re.found Pat.code_like url = true
        /\ exists page, page ∈ requested st /\ url ∈ links_of page).

(** [url] is visited but neither queued nor requested. *)
Definition passed_over (url : string) (st : state) : Prop :=
  url ∈ visited_urls st /\ url ∉ requested st ++ queue st.

End More.

(** * Facts *)

(** ** Strings *)

Module StrFacts.
Import Str.

Lemma app_empty_r (s : string) : s +:+ "" = s.
Proof. induction s as [|c s IH]; simpl; [reflexivity | now rewrite IH]. Qed.

Lemma app_assoc (a b c : string) : (a +:+ b) +:+ c = a +:+ (b +:+ c).
Proof. induction a as [|x a IH]; simpl; [reflexivity | now rewrite IH]. Qed.

Lemma length_app (a b : string) :
  String.length (a +:+ b) = String.length a + String.length b.
Proof. induction a as [|x a IH]; simpl; [reflexivity | now rewrite IH]. Qed.

Lemma take_app (a b : string) : take (String.length a) (a +:+ b) = a.
Proof. induction a as [|x a IH]; simpl; [now destruct b | now rewrite IH]. Qed.

Lemma app_eq_empty (a b : string) : a +:+ b = "" -> a = "" /\ b = "".
Proof. destruct a; simpl; [tauto | discriminate]. Qed.

Lemma lower_app (a b : string) : lower (a +:+ b) = lower a +:+ lower b.
Proof. induction a as [|x a IH]; simpl; [reflexivity | now rewrite IH]. Qed.

Lemma nonempty_true (s : string) : nonempty s = true <-> s <> "".
Proof. destruct s; simpl; split; congruence. Qed.

End StrFacts.

(** ** The matcher agrees with what a pattern denotes *)

Module ReFacts.
Import Re StrFacts.

Section Engine.
Context {A : Type}.
Implicit Types (m : @matcher A) (L : string -> Prop) (k : string -> option A).

Lemma or_else_Some (x y : option A) (a : A) :
  or_else x y = Some a -> x = Some a \/ (x = None /\ y = Some a).
Proof. destruct x; simpl; intros H; [left | right]; auto. Qed.

Lemma or_else_is_Some_l (x y : option A) : is_Some x -> is_Some (or_else x y).
Proof. intros [a ->]; simpl; eauto. Qed.

Lemma or_else_is_Some_r (x y : option A) : is_Some y -> is_Some (or_else x y).
Proof. destruct x; simpl; eauto. Qed.

Lemma one_sound (ok : ascii -> bool) :
  sound (A:=A) (one ok) (fun w => exists c, w = String c "" /\ ok c = true).
Proof.
  intros [|c s] k x; simpl; [discriminate|].
  destruct (ok c) eqn:Hc; [|discriminate].
  intros Hk. exists (String c ""), s. eauto.
Qed.

Lemma one_complete (ok : ascii -> bool) :
  complete (A:=A) (one ok) (fun w => exists c, w = String c "" /\ ok c = true).
Proof. intros w rest k (c & -> & Hc) Hk; simpl. now rewrite Hc. Qed.

Lemma exactly_sound m L n : sound m L -> sound (exactly m n) (power L n).
Proof.
  intros Hm. induction n as [|n IH]; intros s k x; simpl.
  - intros Hk. exists "", s. auto.
  - intros H. apply Hm in H as (u & rest1 & -> & Hu & H).
    apply IH in H as (v & rest & -> & Hv & Hk).
    exists (u +:+ v), rest. rewrite app_assoc. eauto 7.
Qed.

Lemma exactly_complete m L n : complete m L -> complete (exactly m n) (power L n).
Proof.
  intros Hm. induction n as [|n IH]; intros w rest k; simpl.
  - now intros ->.
  - intros (u & v & -> & Hu & Hv) Hk. rewrite app_assoc.
    apply Hm; [assumption|]. now apply IH.
Qed.

Lemma at_most_sound m L n :
  sound m L -> sound (at_most m n) (fun w => exists j, j <= n /\ power L j w).
Proof.
  intros Hm. induction n as [|n IH]; intros s k x; simpl.
  - intros Hk. exists "", s. split; [reflexivity|]. split; [|assumption].
    exists 0. simpl; auto.
  - intros H. apply or_else_Some in H as [H | [_ Hk]].
    + apply Hm in H as (u & rest1 & -> & Hu & H).
      apply IH in H as (v & rest & -> & (j & Hj & Hv) & Hk).
      exists (u +:+ v), rest. rewrite app_assoc. split; [reflexivity|].
      split; [|assumption]. exists (S j). split; [lia|]. simpl. eauto.
    + exists "", s. split; [reflexivity|]. split; [|assumption].
      exists 0. split; [lia | reflexivity].
Qed.

Lemma at_most_complete m L n :
  complete m L -> complete (at_most m n) (fun w => exists j, j <= n /\ power L j w).
Proof.
  intros Hm. induction n as [|n IH]; intros w rest k (j & Hj & Hw) Hk.
  - assert (j = 0) as -> by lia. simpl in Hw. now subst w.
  - simpl. destruct j as [|j].
    + simpl in Hw. subst w. now apply or_else_is_Some_r.
    + destruct Hw as (u & v & -> & Hu & Hv). apply or_else_is_Some_l.
      rewrite app_assoc. apply Hm; [assumption|].
      apply IH; [|assumption]. exists j. split; [lia | assumption].
Qed.

Lemma many_sound (p : ascii -> bool) : sound (A:=A) (many p) (all_chars p).
Proof.
  intros s. induction s as [|c s IH]; intros k x; simpl.
  - intros Hk. exists "", "". simpl; auto.
  - destruct (p c) eqn:Hc.
    + intros H. apply or_else_Some in H as [H | [_ Hk]].
      * apply IH in H as (w & rest & -> & Hw & Hk).
        exists (String c w), rest. simpl; auto.
      * exists "", (String c s). simpl; auto.
    + intros Hk. exists "", (String c s). simpl; auto.
Qed.

Lemma many_complete (p : ascii -> bool) : complete (A:=A) (many p) (all_chars p).
Proof.
  intros w. induction w as [|c w IH]; intros rest k Hw Hk; simpl.
  - destruct rest as [|c s]; simpl; [assumption|].
    destruct (p c); [now apply or_else_is_Some_r | assumption].
  - destruct Hw as [Hc Hw]. rewrite Hc. apply or_else_is_Some_l. now apply IH.
Qed.

Lemma rmatch_sound (r : regex) : sound (A:=A) (rmatch r) (matches r).
Proof.
  induction r as [|c|p|r1 IH1 r2 IH2|r1 IH1 r2 IH2|r IH|lo extra r IH|p].
  - intros s k x Hk. exists "", s. simpl; auto.
  - intros s k x H. apply one_sound in H as (w & rest & -> & (a & -> & Ha) & Hk).
    exists (String a ""), rest. simpl. apply bool_decide_eq_true in Ha. eauto 6.
  - intros s k x H. apply one_sound in H as (w & rest & -> & (a & -> & Ha) & Hk).
    exists (String a ""), rest. simpl. eauto 6.
  - intros s k x H. simpl in H.
    apply IH1 in H as (u & rest1 & -> & Hu & H).
    apply IH2 in H as (v & rest & -> & Hv & Hk).
    exists (u +:+ v), rest. rewrite app_assoc. simpl. eauto 7.
  - intros s k x H. simpl in H. apply or_else_Some in H as [H | [_ H]].
    + apply IH1 in H as (w & rest & -> & Hw & Hk). exists w, rest. simpl; auto.
    + apply IH2 in H as (w & rest & -> & Hw & Hk). exists w, rest. simpl; auto.
  - intros s k x H. simpl in H. apply or_else_Some in H as [H | [_ Hk]].
    + apply IH in H as (w & rest & -> & Hw & Hk). exists w, rest. simpl; auto.
    + exists "", s. simpl; auto.
  - intros s k x H. simpl in H.
    apply (exactly_sound _ _ lo IH) in H as (u & rest1 & -> & Hu & H).
    apply (at_most_sound _ _ extra IH) in H as (v & rest & -> & (j & Hj & Hv) & Hk).
    exists (u +:+ v), rest. rewrite app_assoc. split; [reflexivity|].
    split; [|assumption]. simpl. exists (lo + j). split; [lia|].
    clear -Hu Hv. revert u Hu. induction lo as [|lo IHlo]; simpl; intros u Hu.
    + now subst u.
    + destruct Hu as (a & b & -> & Ha & Hb). exists a, (b +:+ v).
      rewrite app_assoc. auto.
  - apply many_sound.
Qed.

Lemma power_split L (lo n : nat) (w : string) :
  lo <= n -> power L n w ->
  exists u v, w = u +:+ v /\ power L lo u /\ power L (n - lo) v.
Proof.
  revert n w. induction lo as [|lo IH]; intros n w Hn Hw.
  - exists "", w. rewrite Nat.sub_0_r. simpl; auto.
  - destruct n as [|n]; [lia|]. destruct Hw as (a & b & -> & Ha & Hb).
    destruct (IH n b) as (u & v & -> & Hu & Hv); [lia | assumption |].
    exists (a +:+ u), v. rewrite app_assoc. simpl. eauto 7.
Qed.

Lemma rmatch_complete (r : regex) : complete (A:=A) (rmatch r) (matches r).
Proof.
  induction r as [|c|p|r1 IH1 r2 IH2|r1 IH1 r2 IH2|r IH|lo extra r IH|p].
  - intros w rest k -> Hk. assumption.
  - intros w rest k (a & -> & Ha) Hk. simpl.
    rewrite bool_decide_eq_true_2 by assumption. assumption.
  - intros w rest k (a & -> & Ha) Hk. simpl. now rewrite Ha.
  - intros w rest k (u & v & -> & Hu & Hv) Hk. simpl. rewrite app_assoc.
    apply IH1; [assumption|]. now apply IH2.
  - intros w rest k [Hw | Hw] Hk; simpl.
    + apply or_else_is_Some_l. now apply IH1.
    + apply or_else_is_Some_r. now apply IH2.
  - intros w rest k [-> | Hw] Hk; simpl.
    + now apply or_else_is_Some_r.
    + apply or_else_is_Some_l. now apply IH.
  - intros w rest k (n & Hn & Hw) Hk. simpl.
    destruct (power_split (matches r) lo n w) as (u & v & -> & Hu & Hv); [lia | assumption |].
    rewrite app_assoc. apply (exactly_complete _ _ lo IH); [assumption|].
    apply (at_most_complete _ _ extra IH); [|assumption].
    exists (n - lo). split; [lia | assumption].
  - apply many_complete.
Qed.
End Engine.

Lemma match_here_Some (r : regex) (s m rest : string) :
  match_here r s = Some (m, rest) -> s = m +:+ rest /\ matches r m.
Proof.
  unfold match_here. destruct (rmatch r s Some) as [rest'|] eqn:H; [|discriminate].
  intros [= <- <-]. apply rmatch_sound in H as (w & rest & -> & Hw & [= ->]).
  rewrite length_app, Nat.add_sub, take_app. auto.
Qed.

Lemma match_here_None (r : regex) (m rest : string) :
  matches r m -> match_here r (m +:+ rest) <> None.
Proof.
  intros Hm. unfold match_here.
  destruct (rmatch_complete (A := string) r m rest Some Hm) as [x ->]; [eauto | discriminate].
Qed.

Lemma occurs_here (r : regex) (m rest : string) : matches r m -> occurs r (m +:+ rest).
Proof. intros Hm. exists "", m, rest. auto. Qed.

Lemma occurs_later (r : regex) (c : ascii) (s : string) :
  occurs r s -> occurs r (String c s).
Proof. intros (pre & m & post & -> & Hm). exists (String c pre), m, post. auto. Qed.

Lemma occurs_cons (r : regex) (c : ascii) (s : string) :
  occurs r (String c s) ->
  (exists m rest, String c s = m +:+ rest /\ matches r m) \/ occurs r s.
Proof.
  intros ([|a pre] & m & post & Heq & Hm).
  - left. exists m, post. auto.
  - right. simpl in Heq. injection Heq as _ ->. exists pre, m, post. auto.
Qed.

Lemma occurs_empty (r : regex) : occurs r "" -> matches r "".
Proof.
  intros (pre & m & post & Heq & Hm). symmetry in Heq.
  apply app_eq_empty in Heq as [_ Heq]. apply app_eq_empty in Heq as [-> _]. assumption.
Qed.

Lemma search_Some (r : regex) (s pre m post : string) :
  search r s = Some (pre, m, post) -> s = pre +:+ m +:+ post /\ matches r m.
Proof.
  revert pre. induction s as [|c s IH]; intros pre; simpl.
  - destruct (match_here r "") as [[m' rest]|] eqn:H; [|discriminate].
    intros [= <- <- <-]. now apply match_here_Some in H.
  - destruct (match_here r (String c s)) as [[m' rest]|] eqn:H.
    + intros [= <- <- <-]. now apply match_here_Some in H.
    + destruct (search r s) as [[[pre' m'] post']|]; [|discriminate].
      intros [= <- <- <-]. destruct (IH pre' eq_refl) as [-> Hm]. auto.
Qed.

Lemma search_None (r : regex) (s : string) : search r s = None -> ~ occurs r s.
Proof.
  induction s as [|c s IH]; simpl.
  - destruct (match_here r "") as [[m' rest]|] eqn:H; [discriminate|].
    intros _ Ho. apply occurs_empty in Ho. now apply (match_here_None r "" "").
  - destruct (match_here r (String c s)) as [[m' rest]|] eqn:H; [discriminate|].
    destruct (search r s) as [[[pre' m'] post']|]; [discriminate|].
    intros _ Ho. apply occurs_cons in Ho as [(m & rest & Heq & Hm) | Ho].
    + rewrite Heq in H. now apply match_here_None in H.
    + now apply IH.
Qed.

(** [re.search] finds something exactly when some substring matches. *)
Lemma found_occurs (r : regex) (s : string) : found r s = true <-> occurs r s.
Proof.
  unfold found. destruct (search r s) as [[[pre m] post]|] eqn:H.
  - split; [intros _ | reflexivity]. apply search_Some in H as [-> Hm].
    exists pre, m, post. auto.
  - split; [discriminate|]. intros Ho. now apply search_None in H.
Qed.

Lemma found_false (r : regex) (s : string) : found r s = false <-> ~ occurs r s.
Proof. rewrite <- found_occurs. destruct (found r s); split; congruence. Qed.

End ReFacts.

(** ** [re.findall] and the patterns of the script *)

Module PatFacts.
Import Re StrFacts ReFacts.

Lemma tokens_of_cons (r : regex) (c : ascii) (s : string) (tokens : list string) :
  match_here r (String c s) = None ->
  tokens_of r s tokens -> tokens_of r (String c s) tokens.
Proof.
  intros Hnone Ht.
  assert (Hhead : forall gap, ~ occurs r gap -> forall tail, s = gap +:+ tail ->
                  ~ occurs r (String c gap)).
  { intros gap Hgap tail -> Ho. apply occurs_cons in Ho as [(m & rest & Heq & Hm) | Ho];
      [|contradiction].
    apply (match_here_None r m (rest +:+ tail)) in Hm. apply Hm.
    rewrite <- app_assoc, <- Heq. exact Hnone. }
  destruct Ht as [s Hs | gap m rest tokens Hgap Hm Ht].
  - constructor. apply (Hhead s Hs ""). now rewrite app_empty_r.
  - change (String c (gap +:+ m +:+ rest)) with (String c gap +:+ m +:+ rest).
    constructor; [|assumption..]. now apply (Hhead gap Hgap (m +:+ rest)).
Qed.

Lemma findall_fuel_tokens (r : regex) :
  ~ matches r "" ->
  forall fuel s, String.length s < fuel -> tokens_of r s (findall_fuel fuel r s).
Proof.
  intros Hne fuel. induction fuel as [|fuel IH]; intros s Hlen; [lia|]. simpl.
  destruct (match_here r s) as [[[|c m] rest]|] eqn:Hm.
  - apply match_here_Some in Hm as [_ Hm]. contradiction.
  - apply match_here_Some in Hm as [-> Hm].
    apply (tokens_next r "" (String c m) rest).
    + intros Ho. now apply occurs_empty in Ho.
    + assumption.
    + apply IH. rewrite length_app in Hlen. simpl in Hlen. lia.
  - destruct s as [|c s].
    + constructor. intros Ho. now apply occurs_empty in Ho.
    + apply tokens_of_cons; [assumption|]. apply IH. simpl in Hlen. lia.
Qed.

(** For a pattern that does not match the empty string, [re.findall]
    returns successive non-overlapping matches that leave no match behind. *)
Lemma findall_tokens (r : regex) (s : string) :
  ~ matches r "" -> tokens_of r s (findall r s).
Proof. intros Hne. apply findall_fuel_tokens; [assumption | lia]. Qed.

Lemma tokens_of_nil (r : regex) (s : string) (tokens : list string) :
  tokens_of r s tokens -> (tokens = [] <-> ~ occurs r s).
Proof.
  intros [s' Hs | gap m rest tokens' _ Hm _].
  - tauto.
  - split; [discriminate|]. intros Hno. exfalso. apply Hno. now exists gap, m, rest.
Qed.

Lemma lower_empty (m : string) : Str.lower m = "" -> m = "".
Proof. destruct m; simpl; [reflexivity | discriminate]. Qed.

(** A literal matches the words equal to it up to case. *)
Lemma matches_lit (w m : string) : matches (lit w) m <-> Str.lower m = Str.lower w.
Proof.
  revert m. induction w as [|c w IH]; intros m; simpl.
  - split; [now intros -> | apply lower_empty].
  - split.
    + intros (u & v & -> & (x & -> & Hx) & Hv). simpl. rewrite Hx.
      f_equal. now apply IH.
    + destruct m as [|x m]; simpl; [discriminate|]. intros [= Hx Hm].
      exists (String x ""), m. split; [reflexivity|]. split; [eauto|]. now apply IH.
Qed.

Lemma power_nonempty L (n : nat) :
  ~ L "" -> 0 < n -> forall w, power L n w -> w <> "".
Proof.
  intros HL Hn w Hw ->. destruct n as [|n]; [lia|].
  destruct Hw as (u & v & Heq & Hu & _). symmetry in Heq.
  apply app_eq_empty in Heq as [-> _]. contradiction.
Qed.

Lemma course_code_nonempty : ~ matches Pat.course_code "".
Proof.
  intros (u & v & Heq & (n & Hn & Hu) & _). symmetry in Heq.
  apply app_eq_empty in Heq as [-> _].
  apply (power_nonempty (matches Pat.letter) n) in Hu; [congruence | | lia].
  intros (x & Hx & _). discriminate.
Qed.


Lemma matches_digit_pair (d1 d2 : ascii) :
  Str.is_digit d1 = true -> Str.is_digit d2 = true ->
  matches Pat.code_like (String d1 (String d2 "")).
Proof.
  intros H1 H2. exists (String d1 (String d2 "")), "". split; [reflexivity|]. split.
  - exists 2. split; [lia|]. exists (String d1 ""), (String d2 ""). split; [reflexivity|].
    split; [exists d1; auto|]. exists (String d2 ""), "". split; [reflexivity|].
    split; [exists d2; auto | reflexivity].
  - now left.
Qed.

(** A course-code-like substring is there exactly when two digits stand
    side by side. *)
Lemma code_like_two_digits (s : string) :
  occurs Pat.code_like s <->
  exists pre d1 d2 post,
    s = pre +:+ String d1 (String d2 post)
    /\ Str.is_digit d1 = true /\ Str.is_digit d2 = true.
Proof.
  split.
  - intros (pre & m & post & -> & u & v & -> & (n & Hn & Hu) & _).
    destruct (power_split (matches Pat.digit) 2 n u) as (u1 & u2 & -> & Hu1 & _);
      [lia | assumption |].
    destruct Hu1 as (a & b & -> & (d1 & -> & H1) & c & e & -> & (d2 & -> & H2) & He).
    simpl in He. subst e.
    exists pre, d1, d2, (u2 +:+ v +:+ post). split; [|auto].
    simpl. now rewrite !app_assoc.
  - intros (pre & d1 & d2 & post & -> & H1 & H2).
    exists pre, (String d1 (String d2 "")), post. split; [reflexivity|].
    now apply matches_digit_pair.
Qed.
(** X2: the search for [\d{2,4}[a-z]?], which decides at lines 91 and 184
    whether a URL looks like a course page, succeeds exactly on the URLs
    that have two digits side by side. *)
Theorem code_like_search_is_two_digits (url : string) :
  found Pat.code_like url = true <-> More.adjacent_digits url.
Proof. rewrite found_occurs. apply code_like_two_digits. Qed.

End PatFacts.

(** ** More on strings: reversal, stripping, splitting *)

Module StrMore.
Import Str StrFacts Re.

Lemma rev_onto_app (s acc : string) : rev_onto s acc = rev s +:+ acc.
Proof.
  unfold rev. revert acc. induction s as [|c s IH]; intros acc; simpl; [reflexivity|].
  rewrite (IH (String c acc)), (IH (String c "")), app_assoc. reflexivity.
Qed.

Lemma rev_cons (c : ascii) (s : string) : rev (String c s) = rev s +:+ String c "".
Proof. unfold rev at 1. simpl. apply rev_onto_app. Qed.

Lemma rev_app (a b : string) : rev (a +:+ b) = rev b +:+ rev a.
Proof.
  induction a as [|c a IH]; simpl.
  - now rewrite app_empty_r.
  - now rewrite !rev_cons, IH, app_assoc.
Qed.

Lemma rev_involutive (s : string) : rev (rev s) = s.
Proof.
  induction s as [|c s IH]; [reflexivity|]. now rewrite rev_cons, rev_app, IH.
Qed.

Lemma take_drop_while (p : ascii -> bool) (s : string) :
  take_while p s +:+ drop_while p s = s.
Proof.
  induction s as [|c s IH]; simpl; [reflexivity|].
  destruct (p c); simpl; [now rewrite IH | reflexivity].
Qed.

(** [s.strip()] is a piece of [s]. *)
Lemma strip_substring (s : string) : More.substring (strip s) s.
Proof.
  unfold strip, rstrip, lstrip.
  exists (take_while is_space s),
         (rev (take_while is_space (rev (drop_while is_space s)))).
  rewrite <- rev_app, take_drop_while, rev_involutive. apply eq_sym, take_drop_while.
Qed.

Lemma all_chars_app (p : ascii -> bool) (a b : string) :
  all_chars p (a +:+ b) <-> all_chars p a /\ all_chars p b.
Proof.
  induction a as [|c a IH]; simpl; [tauto|]. rewrite IH. tauto.
Qed.

Lemma all_chars_substring (p : ascii -> bool) (part s : string) :
  More.substring part s -> all_chars p s -> all_chars p part.
Proof.
  intros (pre & post & ->) H. apply all_chars_app in H as [_ H].
  now apply all_chars_app in H as [H _].
Qed.

Lemma all_chars_take_while (p : ascii -> bool) (s : string) :
  all_chars p (take_while p s).
Proof.
  induction s as [|c s IH]; simpl; [exact I|].
  destruct (p c) eqn:Hc; simpl; auto.
Qed.

Lemma substring_trans (a b c : string) :
  More.substring a b -> More.substring b c -> More.substring a c.
Proof.
  intros (pre & post & ->) (pre' & post' & ->).
  exists (pre' +:+ pre), (post +:+ post'). now rewrite !app_assoc.
Qed.

Lemma take_while_substring (p : ascii -> bool) (s : string) :
  More.substring (take_while p s) s.
Proof.
  exists "", (drop_while p s). simpl. apply eq_sym, take_drop_while.
Qed.

Lemma any_char_app (p : ascii -> bool) (a b : string) :
  More.any_char p (a +:+ b) = More.any_char p a || More.any_char p b.
Proof.
  induction a as [|c a IH]; simpl; [reflexivity|]. rewrite IH. apply orb_assoc.
Qed.

Lemma split_not_nil (sep : ascii) (s : string) : split sep s <> [].
Proof.
  induction s as [|c s IH]; simpl; [discriminate|].
  destruct (decide (c = sep)); [discriminate|].
  destruct (split sep s); discriminate.
Qed.

(** A text that ends with the separator ends with an empty piece. *)
Lemma split_snoc (sep : ascii) (s : string) :
  split sep (s +:+ String sep "") = split sep s ++ [""].
Proof.
  induction s as [|c s IH]; simpl.
  - now rewrite decide_True.
  - destruct (decide (c = sep)); [now rewrite IH|]. rewrite IH.
    pose proof (split_not_nil sep s) as Hne.
    destruct (split sep s) as [|piece pieces]; [contradiction | reflexivity].
Qed.

End StrMore.

(** ** The extractor: [scrape_prerequisites] *)

Module ExtractorFacts.
Import Re StrFacts ReFacts PatFacts Soup Scraper.

Lemma prereqs_of_nonempty (raw : string) :
  raw <> "" ->
  prereqs_of (Some raw) =
    match findall Pat.course_code raw with
    | [] => raw
    | course_codes => Str.join ", " course_codes
    end.
Proof.
  intros Hraw. unfold prereqs_of. simpl.
  apply nonempty_true in Hraw. now rewrite Hraw.
Qed.

(** C6, as the code has it: the structured value of a raw statement in which
    the course-code pattern occurs is the successive matches joined by a
    comma and a space, repeated ones included; a raw statement in which it
    does not occur is kept verbatim. *)
Theorem prereqs_of_joins_every_match (raw : string) :
  raw <> "" ->
  (occurs Pat.course_code raw ->
   exists tokens, tokens <> [] /\ tokens_of Pat.course_code raw tokens
                  /\ prereqs_of (Some raw) = Str.join ", " tokens)
  /\ (~ occurs Pat.course_code raw -> prereqs_of (Some raw) = raw).
Proof.
  intros Hraw. rewrite (prereqs_of_nonempty raw Hraw).
  pose proof (findall_tokens Pat.course_code raw course_code_nonempty) as Ht.
  pose proof (tokens_of_nil _ _ _ Ht) as Hnil.
  destruct (findall Pat.course_code raw) as [|t ts] eqn:Hfind.
  - split; [|reflexivity]. intros Ho. exfalso. now apply Hnil.
  - split.
    + intros _. exists (t :: ts). split; [discriminate|]. split; [assumption | reflexivity].
    + intros Hno. apply Hnil in Hno. discriminate.
Qed.

Lemma prereqs_of_joins_every_match_witness :
  exists tokens, tokens <> [] /\ tokens_of Pat.course_code "CS101 or CS101" tokens
                 /\ prereqs_of (Some "CS101 or CS101") = Str.join ", " tokens.
Proof.
  apply (prereqs_of_joins_every_match "CS101 or CS101"); [discriminate|].
  apply found_occurs. vm_compute. reflexivity.
Defined.

(** C6 as stated fails: a token that occurs twice is written twice. *)
Lemma repeated_token_is_kept :
  occurs Pat.course_code "CS101 or CS101"
  /\ prereqs_of (Some "CS101 or CS101") = "CS101, CS101"
  /\ Str.join ", " (Spec.first_appearances (findall Pat.course_code "CS101 or CS101"))
     = "CS101"
  /\ prereqs_of (Some "CS101 or CS101")
     <> Str.join ", " (Spec.first_appearances (findall Pat.course_code "CS101 or CS101")).
Proof.
  split; [apply found_occurs; vm_compute; reflexivity|].
  split; [vm_compute; reflexivity|].
  split; [vm_compute; reflexivity|].
  vm_compute. discriminate.
Qed.

(** The page of the specification's scenario: the codes are joined as they
    stand in the text. *)
Example algorithms_page_record :
  extract World.algorithms World.algorithms_doc
  = record "Intro to Algorithms" "CS 101, MATH 201" World.algorithms.
Proof. vm_compute. reflexivity. Qed.

Lemma take_while_split (p : ascii -> bool) (s : string) :
  hd "" (Str.split "." (Str.take_while p s))
  = Str.take_while (fun c => p c && negb (bool_decide (c = "."%char))) s.
Proof.
  induction s as [|c s IH]; simpl; [reflexivity|].
  destruct (p c); simpl; [|reflexivity].
  destruct (decide (c = "."%char)) as [->|Hc]; simpl.
  - reflexivity.
  - rewrite bool_decide_eq_false_2 by assumption. simpl. rewrite <- IH.
    now destruct (Str.split "." (Str.take_while p s)).
Qed.

Lemma fulltext_statement_search (doc : soup) (pre m rest : string) :
  search Pat.prereq_intro (get_text (document doc)) = Some (pre, m, rest) ->
  fulltext_statement doc = Some (Str.strip (Spec.up_to_stop_or_line_end rest)).
Proof.
  intros H. unfold fulltext_statement. rewrite H. now rewrite take_while_split.
Qed.

(** C7, as the code has it: the block after the first heading is used when
    its text is not empty, whatever the rest of the page says; otherwise the
    statement is what follows the leftmost [prerequisite(s)(:)] in the page
    text, up to the first full stop or the end of the line, stripped. *)
Theorem prereq_text_priority (doc : soup) :
  (forall heading siblings next_element,
     find prereq_heading doc = Some (heading, siblings) ->
     find_next_sibling ["p"; "ul"; "div"] siblings = Some next_element ->
     get_text_stripped next_element <> "" ->
     prereq_text doc = Some (get_text_stripped next_element))
  /\ (forall pre m rest,
        truthy (heading_statement doc) = false ->
        search Pat.prereq_intro (get_text (document doc)) = Some (pre, m, rest) ->
        get_text (document doc) = pre +:+ m +:+ rest
        /\ matches Pat.prereq_intro m
        /\ prereq_text doc = Some (Str.strip (Spec.up_to_stop_or_line_end rest)))
  /\ (truthy (heading_statement doc) = false ->
      ~ occurs Pat.prereq_intro (get_text (document doc)) ->
      truthy (prereq_text doc) = false).
Proof.
  split; [|split].
  - intros heading siblings next_element Hfind Hnext Htext.
    unfold prereq_text, heading_statement. rewrite Hfind, Hnext. simpl.
    apply nonempty_true in Htext. now rewrite Htext.
  - intros pre m rest Hfalsy Hsearch.
    destruct (search_Some _ _ _ _ _ Hsearch) as [Heq Hm].
    split; [assumption|]. split; [assumption|].
    unfold prereq_text. rewrite Hfalsy.
    now rewrite (fulltext_statement_search doc pre m rest Hsearch).
  - intros Hfalsy Hno. unfold prereq_text. rewrite Hfalsy.
    unfold fulltext_statement.
    destruct (search Pat.prereq_intro (get_text (document doc))) as [[[pre m] rest]|] eqn:Hs.
    + exfalso. apply Hno. apply found_occurs. unfold found. now rewrite Hs.
    + assumption.
Qed.

Lemma prereq_text_priority_witness :
  prereq_text World.algorithms_doc = Some "CS 101, MATH 201"
  /\ prereq_text World.two_lines_doc = Some "CS 101"
  /\ truthy (prereq_text [Tag "p" ∅ [Text "Open to all."]]) = false.
Proof.
  split; [|split].
  - apply (proj1 (prereq_text_priority World.algorithms_doc)
             (Tag "h2" ∅ [Text "Prerequisites"]) [Tag "p" ∅ [Text "CS 101, MATH 201"]]
             (Tag "p" ∅ [Text "CS 101, MATH 201"]));
      [vm_compute; reflexivity | vm_compute; reflexivity | vm_compute; discriminate].
  - apply (proj1 (proj2 (prereq_text_priority World.two_lines_doc))
             "" "Prerequisites: " ("CS 101" +:+ World.nl +:+ "or MATH 201. Ask the office."));
      vm_compute; reflexivity.
  - apply (proj2 (proj2 (prereq_text_priority [Tag "p" ∅ [Text "Open to all."]])));
      [vm_compute; reflexivity |].
    apply found_false. vm_compute. reflexivity.
Defined.

(** C7 as stated fails twice: an empty block after the heading sends the
    extractor to the full-text search, and that search stops at the end of
    the line even when no full stop has been met. *)
Lemma empty_block_falls_back :
  (find prereq_heading World.empty_block_doc
     = Some (Tag "h2" ∅ [Text "Prerequisites"],
             [Tag "p" ∅ []; Tag "p" ∅ [Text "CS 101 required. Ask the office."]])
   /\ find_next_sibling ["p"; "ul"; "div"]
        [Tag "p" ∅ []; Tag "p" ∅ [Text "CS 101 required. Ask the office."]]
      = Some (Tag "p" ∅ [])
   /\ prereq_text World.empty_block_doc = Some "CS 101 required"
   /\ prereq_text World.empty_block_doc <> Some (get_text_stripped (Tag "p" ∅ [])))
  /\ (search Pat.prereq_intro (get_text (document World.two_lines_doc))
      = Some ("", "Prerequisites: ", "CS 101" +:+ World.nl +:+ "or MATH 201. Ask the office.")
      /\ prereq_text World.two_lines_doc = Some "CS 101"
      /\ prereq_text World.two_lines_doc
         <> Some (Str.strip (Spec.up_to_full_stop
                    ("CS 101" +:+ World.nl +:+ "or MATH 201. Ask the office.")))).
Proof.
  repeat split; try (vm_compute; reflexivity); vm_compute; discriminate.
Qed.


Import StrMore.

Lemma power_digit_any (n : nat) (w : string) :
  0 < n -> power (matches Pat.digit) n w -> More.any_char Str.is_digit w = true.
Proof.
  intros Hn Hw. destruct n as [|n]; [lia|].
  destruct Hw as (u & v & -> & (d & -> & Hd) & _). simpl. now rewrite Hd.
Qed.

Lemma course_code_has_digit (m : string) :
  matches Pat.course_code m -> More.any_char Str.is_digit m = true.
Proof.
  intros (u & v & -> & _ & s & w & -> & _ & ds & l & -> & (n & Hn & Hds) & _).
  rewrite !any_char_app. rewrite (power_digit_any n ds) by (assumption || lia).
  now rewrite !orb_true_r.
Qed.

Lemma join_head (sep t : string) (ts : list string) :
  exists tail, Str.join sep (t :: ts) = t +:+ tail.
Proof.
  destruct ts as [|t' ts]; simpl; [exists ""; now rewrite app_empty_r | eauto].
Qed.

(** The structured value is the sentinel only when there is no raw
    statement, or when the raw statement is the sentinel word for word. *)
Lemma prereqs_of_sentinel (t : option string) :
  prereqs_of t = "Not specified" <-> truthy t = false \/ t = Some "Not specified".
Proof.
  split.
  - destruct (truthy t) eqn:Ht; [|now left]. intros H. right.
    destruct t as [raw|]; [|discriminate]. simpl in Ht.
    apply nonempty_true in Ht. rewrite (prereqs_of_nonempty raw Ht) in H.
    pose proof (findall_tokens Pat.course_code raw course_code_nonempty) as Htok.
    destruct (findall Pat.course_code raw) as [|m ms]; [now subst raw|].
    exfalso. inversion Htok as [|gap m' rest ms' _ Hm _]; subst.
    destruct (join_head ", " m ms) as [tail Hj]. rewrite Hj in H.
    apply (f_equal (More.any_char Str.is_digit)) in H.
    rewrite any_char_app, (course_code_has_digit m Hm) in H. discriminate.
  - intros [Ht | ->]; [|vm_compute; reflexivity].
    unfold prereqs_of. now rewrite Ht.
Qed.

Lemma emittable_extract (url : string) (doc : soup) :
  Spec.emittable (extract url doc) <->
  course_title url doc <> "" /\ truthy (prereq_text doc) = true
  /\ prereq_text doc <> Some "Not specified".
Proof.
  unfold Spec.emittable, extract, record.
  rewrite lookup_insert_eq, lookup_insert_ne, lookup_insert_eq by discriminate.
  simpl. rewrite nonempty_true.
  pose proof (prereqs_of_sentinel (prereq_text doc)) as Hs.
  split.
  - intros [Ht Hp]. split; [assumption|].
    destruct (truthy (prereq_text doc)) eqn:Htr.
    + split; [reflexivity|]. intros Heq. apply Hp. f_equal. apply Hs. now right.
    + exfalso. apply Hp. f_equal. apply Hs. now left.
  - intros (Ht & Htr & Hne). split; [assumption|]. intros [= Heq].
    apply Hs in Heq as [Heq | Heq]; congruence.
Qed.

(** X9: a page yields a record that passes the test of line 193 exactly
    when its title is not empty and it has a raw prerequisite statement
    that is not the text [Not specified]; a page whose statement reads
    [Not specified] is taken for one without a statement. *)
Theorem extract_emittable (url : string) (doc : soup) :
  Spec.emittable (extract url doc) <->
  course_title url doc <> "" /\ truthy (prereq_text doc) = true
  /\ prereq_text doc <> Some "Not specified".
Proof. apply emittable_extract. Qed.

Lemma last_split_slash (url : string) :
  List.last (Str.split "/" (url +:+ "/")) "" = "".
Proof. rewrite split_snoc. apply last_last. Qed.

(** A page without [h1], [h2], [h3] and [title], at a URL that ends with a
    slash, has an empty title and yields no record that may be kept. *)
Lemma trailing_slash_no_title (url : string) (doc : soup) :
  find (named ["h1"; "h2"; "h3"]) doc = None ->
  find (named ["title"]) doc = None ->
  course_title (url +:+ "/") doc = "" /\ ~ Spec.emittable (extract (url +:+ "/") doc).
Proof.
  intros Hh Ht.
  assert (Htitle : course_title (url +:+ "/") doc = "").
  { unfold course_title. rewrite Hh, Ht, last_split_slash. reflexivity. }
  split; [exact Htitle|]. rewrite emittable_extract. tauto.
Qed.

(** X10: the statement the full-text search returns is a piece of the
    page text that holds no full stop and no line break. *)
Theorem fulltext_statement_is_one_sentence (doc : soup) (statement : string) :
  fulltext_statement doc = Some statement ->
  More.substring statement (get_text (document doc))
  /\ all_chars (fun c => Str.not_newline c && negb (bool_decide (c = "."%char))) statement.
Proof.
  unfold fulltext_statement.
  destruct (search Pat.prereq_intro (get_text (document doc))) as [[[pre m] rest]|] eqn:Hs;
    [|discriminate].
  rewrite take_while_split. intros [= <-].
  apply search_Some in Hs as [Heq _].
  set (sentence := Str.take_while
                     (fun c => Str.not_newline c && negb (bool_decide (c = "."%char))) rest).
  assert (Hsub : More.substring (Str.strip sentence) sentence) by apply strip_substring.
  split.
  - apply (substring_trans _ sentence); [exact Hsub|].
    apply (substring_trans _ rest); [apply take_while_substring|].
    exists (pre +:+ m), "". rewrite Heq, app_empty_r, app_assoc. reflexivity.
  - apply (all_chars_substring _ _ sentence Hsub). apply all_chars_take_while.
Qed.

Lemma fulltext_statement_is_one_sentence_witness :
  More.substring "CS 101" (get_text (document World.two_lines_doc))
  /\ all_chars (fun c => Str.not_newline c && negb (bool_decide (c = "."%char))) "CS 101".
Proof.
  apply (fulltext_statement_is_one_sentence World.two_lines_doc "CS 101").
  vm_compute. reflexivity.
Defined.

End ExtractorFacts.

(** ** The link classifier: [find_course_links] *)

Module ClassifierFacts.
Import Re StrFacts ReFacts PatFacts Soup Scraper.

Lemma occurs_alt (r1 r2 : regex) (s : string) :
  occurs (Alt r1 r2) s <-> occurs r1 s \/ occurs r2 s.
Proof.
  split.
  - intros (pre & m & post & -> & [Hm | Hm]); [left | right]; now exists pre, m, post.
  - intros [(pre & m & post & -> & Hm) | (pre & m & post & -> & Hm)];
      exists pre, m, post; simpl; auto.
Qed.

Lemma occurs_lit (w s : string) :
  occurs (lit w) s <-> Spec.contains_ci (Str.lower w) s.
Proof.
  split; intros (pre & m & post & -> & Hm); exists pre, m, post;
    (split; [reflexivity|]); now apply matches_lit.
Qed.

(** [#|javascript|mailto] is found exactly in the URLs that carry a marker. *)
Lemma unwanted_has_marker (url : string) :
  found Pat.unwanted url = true <-> Spec.has_marker url.
Proof.
  rewrite found_occurs. unfold Pat.unwanted, Spec.has_marker.
  rewrite !occurs_alt, !occurs_lit. reflexivity.
Qed.

Lemma relevant_has_keyword (url : string) :
  relevant url = true <-> Spec.has_keyword url.
Proof.
  unfold relevant, Spec.has_keyword. rewrite existsb_exists. split.
  - intros (keyword & Hin & Hfound). exists keyword.
    split; [now apply list_elem_of_In | now apply found_occurs].
  - intros (keyword & Hin & Ho). exists keyword.
    split; [now apply list_elem_of_In | now apply found_occurs].
Qed.

Section Classifier.
Variable parse : string -> soup.
Variable urljoin : string -> string -> string.

(** The test of lines 89-95 on a resolved URL. *)
Let kept (url : string) : bool :=
  relevant url && (found Pat.code_like url || negb (found Pat.unwanted url)).

Lemma add_if_course_link_elem (base_url url : string) (links : gset string) (link : node) :
  url ∈ add_if_course_link urljoin base_url links link <->
  url ∈ links \/ exists href, attr "href" link = Some href
                              /\ url = urljoin base_url href /\ kept url = true.
Proof.
  unfold add_if_course_link, kept. destruct (attr "href" link) as [href|].
  - destruct (relevant (urljoin base_url href)) eqn:Hrel;
      [destruct (found Pat.code_like (urljoin base_url href)) eqn:Hcode;
       [|destruct (found Pat.unwanted (urljoin base_url href)) eqn:Hun]|]; simpl.
    + rewrite elem_of_union, elem_of_singleton. split.
      * intros [-> | H]; [right | now left]. exists href. now rewrite Hrel, Hcode.
      * intros [H | (h & [= <-] & -> & _)]; auto.
    + split; [now left|]. intros [H | (h & [= <-] & -> & H)]; [assumption|].
      rewrite Hrel, Hcode, Hun in H. discriminate.
    + rewrite elem_of_union, elem_of_singleton. split.
      * intros [-> | H]; [right | now left]. exists href. now rewrite Hrel, Hcode, Hun.
      * intros [H | (h & [= <-] & -> & _)]; auto.
    + split; [now left|]. intros [H | (h & [= <-] & -> & H)]; [assumption|].
      rewrite Hrel in H. discriminate.
  - split; [now left|]. intros [H | (h & [=] & _)]. assumption.
Qed.

Lemma foldl_add_elem (base_url url : string) (anchors : list node) (links : gset string) :
  url ∈ foldl (add_if_course_link urljoin base_url) links anchors <->
  url ∈ links \/ exists link href, link ∈ anchors /\ attr "href" link = Some href
                                   /\ url = urljoin base_url href /\ kept url = true.
Proof.
  revert links. induction anchors as [|a anchors IH]; intros links; simpl.
  - split; [now left|]. intros [H | (link & href & Hin & _)]; [assumption|].
    now apply elem_of_nil in Hin.
  - rewrite IH, add_if_course_link_elem. split.
    + intros [[H | (href & Ha & Hu & Hk)] | (link & href & Hin & Ha & Hu & Hk)].
      * now left.
      * right. exists a, href. rewrite elem_of_cons. auto.
      * right. exists link, href. rewrite elem_of_cons. auto.
    + intros [H | (link & href & Hin & Ha & Hu & Hk)]; [now left; left|].
      apply elem_of_cons in Hin as [-> | Hin].
      * left; right. now exists href.
      * right. now exists link, href.
Qed.

(** The returned set: the hyperlinks that match a keyword and either
    contain a course-code-like substring or carry no marker. *)
Lemma find_course_links_elem (html base_url url : string) :
  url ∈ find_course_links parse urljoin html base_url <->
  Spec.hyperlink parse urljoin html base_url url /\ Spec.has_keyword url
  /\ (occurs Pat.code_like url \/ ~ Spec.has_marker url).
Proof.
  unfold find_course_links. rewrite foldl_add_elem. unfold kept, Spec.hyperlink.
  rewrite <- relevant_has_keyword, <- found_occurs, <- unwanted_has_marker.
  split.
  - intros [H | (link & href & Hin & Ha & Hu & Hk)]; [now apply not_elem_of_empty in H|].
    apply andb_prop in Hk as [Hrel Hk]. split; [eauto|]. split; [assumption|].
    apply orb_prop in Hk as [Hk | Hk]; [now left | right].
    apply negb_true_iff in Hk. congruence.
  - intros ((link & href & Hin & Ha & Hu) & Hrel & Hk). right. exists link, href.
    split; [assumption|]. split; [assumption|]. split; [assumption|].
    rewrite Hrel. simpl. destruct Hk as [-> | Hk]; [reflexivity|].
    destruct (found Pat.unwanted url); [contradiction|]. apply orb_true_r.
Qed.

(** C5, as the code has it: a URL with a fragment marker, [javascript] or
    [mailto] in it is returned exactly when it is a hyperlink of the page
    that matches a keyword and contains a course-code-like substring;
    without such a substring it is left out. *)
Theorem marked_link_needs_code (html base_url url : string) :
  Spec.has_marker url ->
  (url ∈ find_course_links parse urljoin html base_url <->
   Spec.hyperlink parse urljoin html base_url url /\ Spec.has_keyword url
   /\ occurs Pat.code_like url)
  /\ (~ occurs Pat.code_like url ->
      url ∉ find_course_links parse urljoin html base_url).
Proof.
  intros Hmark. rewrite find_course_links_elem. split; [|tauto]. tauto.
Qed.
(** X1: [find_course_links] returns exactly the hyperlinks of the page,
    resolved against its URL, that match a keyword and either have two
    digits side by side or carry no fragment marker, [javascript] or
    [mailto]. *)
Theorem course_links_characterised (html base_url url : string) :
  url ∈ find_course_links parse urljoin html base_url <->
  Spec.hyperlink parse urljoin html base_url url /\ Spec.has_keyword url
  /\ (More.adjacent_digits url \/ ~ Spec.has_marker url).
Proof.
  rewrite find_course_links_elem.
  pose proof (code_like_two_digits url) as Hdigits.
  unfold More.adjacent_digits. tauto.
Qed.

End Classifier.

Lemma anchored_has_marker : Spec.has_marker World.anchored.
Proof.
  left. exists "https://www.bmsce.ac.in/courses/cs101", "#", "syllabus".
  split; reflexivity.
Qed.

Lemma top_of_page_has_marker : Spec.has_marker World.top_of_page.
Proof.
  left. exists "https://www.bmsce.ac.in/courses/", "#", "top". split; reflexivity.
Qed.

Lemma marked_link_needs_code_witness :
  World.top_of_page
    ∉ find_course_links World.parse World.urljoin World.anchors_html World.curriculum.
Proof.
  apply (marked_link_needs_code World.parse World.urljoin World.anchors_html
           World.curriculum World.top_of_page top_of_page_has_marker).
  apply found_false. vm_compute. reflexivity.
Defined.

(** C5 as stated fails: a link with a fragment marker and a course code in
    it is returned. *)
Lemma marked_link_with_code_is_returned :
  Spec.has_marker World.anchored
  /\ Spec.hyperlink World.parse World.urljoin World.anchors_html World.curriculum
       World.anchored
  /\ World.anchored
       ∈ find_course_links World.parse World.urljoin World.anchors_html World.curriculum.
Proof.
  split; [exact anchored_has_marker|]. split.
  - exists (Tag "a" {["href" := World.anchored]} [Text "Syllabus"]), World.anchored.
    split; [|split; reflexivity]. vm_compute. left.
  - vm_compute. reflexivity.
Qed.

End ClassifierFacts.

(** ** The lookup of [chatbot.py] *)

Module ChatbotFacts.
Import StrFacts Scraper Chatbot.

Lemma found_is_not_not_found (title prereqs source course_name : string) :
  found_message title prereqs source <> not_found_message course_name.
Proof. unfold found_message, not_found_message. simpl. discriminate. Qed.

Lemma find_prerequisites_first (course_name title : string) (before after : list dict)
    (course : dict) :
  Forall (fun d => exists t, d !! "title" = Some t
                             /\ Str.lower t <> Str.lower course_name) before ->
  course !! "title" = Some title ->
  Str.lower title = Str.lower course_name ->
  find_prerequisites course_name (before ++ course :: after)
  = inr (found_message title (get course "prerequisites" "Not specified")
                       (get course "source" "Unknown")).
Proof.
  intros Hbefore Htitle Hsame.
  induction Hbefore as [|d before (t & Ht & Hne) _ IH]; simpl.
  - rewrite Htitle. now rewrite decide_True by assumption.
  - rewrite Ht. now rewrite decide_False by assumption.
Qed.

Lemma find_prerequisites_not_found (course_name : string) (data : list dict) :
  Forall (fun d => is_Some (d !! "title")) data ->
  find_prerequisites course_name data = inr (not_found_message course_name)
  <-> ~ exists course, course ∈ data /\ same_title course_name course.
Proof.
  intros Hdata. induction Hdata as [|d data [t Ht] _ IH]; simpl.
  - split; [|reflexivity]. intros _ (course & Hin & _). now apply elem_of_nil in Hin.
  - rewrite Ht. destruct (decide (Str.lower t = Str.lower course_name)) as [Heq|Hne].
    + split.
      * intros H. exfalso. apply (found_is_not_not_found t
          (get d "prerequisites" "Not specified") (get d "source" "Unknown") course_name).
        congruence.
      * intros Hno. exfalso. apply Hno. exists d. split; [left|]. now exists t.
    + rewrite IH. split.
      * intros Hno (course & Hin & Hsame). apply elem_of_cons in Hin as [-> | Hin].
        -- destruct Hsame as (t' & Ht' & Hsame). congruence.
        -- apply Hno. eauto.
      * intros Hno (course & Hin & Hsame). apply Hno. exists course.
        split; [now right | assumption].
Qed.

(** C9, as the code has it: in a dataset whose records all carry a title,
    the lookup answers with the prerequisite string of the first stored
    course whose title equals the query up to case, and with the not-found
    message exactly when no stored title does. *)
Theorem lookup_first_match (course_name : string) (data : list dict) :
  Forall (fun d => is_Some (d !! "title")) data ->
  (forall before course after title,
     data = before ++ course :: after ->
     Forall (fun d => ~ same_title course_name d) before ->
     course !! "title" = Some title ->
     Str.lower title = Str.lower course_name ->
     find_prerequisites course_name data
     = inr (found_message title (get course "prerequisites" "Not specified")
                          (get course "source" "Unknown")))
  /\ (find_prerequisites course_name data = inr (not_found_message course_name)
      <-> ~ exists course, course ∈ data /\ same_title course_name course).
Proof.
  intros Hdata. split; [|now apply find_prerequisites_not_found].
  intros before course after title -> Hbefore Htitle Hsame.
  apply find_prerequisites_first; [|assumption..].
  apply Forall_app in Hdata as [Hdata _].
  rewrite Forall_forall in Hbefore, Hdata. apply Forall_forall. intros d Hd.
  destruct (Hdata d Hd) as [t Ht]. exists t. split; [assumption|].
  intros Heq. apply (Hbefore d Hd). now exists t.
Qed.

Lemma lookup_first_match_witness :
  find_prerequisites "INTRO TO ALGORITHMS" World.twice
  = inr (found_message "Intro To Algorithms" "CS 101" "https://a.edu/courses/algo-101")
  /\ (find_prerequisites "compilers" World.twice = inr (not_found_message "compilers")
      <-> ~ exists course, course ∈ World.twice /\ same_title "compilers" course).
Proof.
  assert (Htitles : Forall (fun d : dict => is_Some (d !! "title")) World.twice).
  { repeat constructor; vm_compute; eauto. }
  split.
  - apply (proj1 (lookup_first_match "INTRO TO ALGORITHMS" World.twice Htitles)
             [] (record "Intro To Algorithms" "CS 101" "https://a.edu/courses/algo-101")
             [record "intro to algorithms" "MATH 201" "https://b.edu/courses/algo-201"]
             "Intro To Algorithms");
      [reflexivity | constructor | vm_compute; reflexivity | vm_compute; reflexivity].
  - apply (proj2 (lookup_first_match "compilers" World.twice Htitles)).
Defined.

(** C9 as stated fails: of two stored courses whose titles equal the query
    up to case, only the first is ever answered. *)
Lemma second_match_is_shadowed :
  let second := record "intro to algorithms" "MATH 201" "https://b.edu/courses/algo-201" in
  second ∈ World.twice
  /\ same_title "intro to algorithms" second
  /\ find_prerequisites "intro to algorithms" World.twice
     = inr (found_message "Intro To Algorithms" "CS 101" "https://a.edu/courses/algo-101")
  /\ find_prerequisites "intro to algorithms" World.twice
     <> inr (found_message "intro to algorithms" (get second "prerequisites" "Not specified")
                           (get second "source" "Unknown")).
Proof.
  intros second. split; [right; left|]. split.
  - exists "intro to algorithms". split; vm_compute; reflexivity.
  - split; [vm_compute; reflexivity | vm_compute; discriminate].
Qed.


Lemma find_prerequisites_key_error (course_name : string) (data : list dict) :
  (find_prerequisites course_name data = inl (KeyError "title") <->
   exists before course after,
     data = before ++ course :: after
     /\ course !! "title" = None
     /\ Forall (fun d => exists t, d !! "title" = Some t
                                   /\ Str.lower t <> Str.lower course_name) before)
  /\ (forall e, find_prerequisites course_name data = inl e -> e = KeyError "title").
Proof.
  split.
  - induction data as [|d data IH]; simpl.
    + split; [discriminate|]. intros (before & course & after & Heq & _).
      now destruct before.
    + destruct (d !! "title") as [t|] eqn:Ht.
      * destruct (decide (Str.lower t = Str.lower course_name)) as [Heq|Hne].
        -- split; [discriminate|].
           intros ([|d' before] & course & after & [= -> ->] & Hnone & Hbefore);
             [congruence|].
           apply Forall_cons in Hbefore as [(t' & Ht' & Hne) _]. congruence.
        -- rewrite IH. split.
           ++ intros (before & course & after & -> & Hnone & Hbefore).
              exists (d :: before), course, after. split; [reflexivity|].
              split; [assumption|]. constructor; [eauto | assumption].
           ++ intros ([|d' before] & course & after & [= -> ->] & Hnone & Hbefore);
                [congruence|].
              apply Forall_cons in Hbefore as [_ Hbefore].
              exists before, course, after. auto.
      * split; [|reflexivity]. intros _. exists [], d, data. auto.
  - induction data as [|d data IH]; simpl; intros e; [discriminate|].
    destruct (d !! "title") as [t|]; [|now intros [= <-]].
    destruct (decide (Str.lower t = Str.lower course_name)); [discriminate | apply IH].
Qed.

(** X13: the lookup raises [KeyError] on [title] exactly when a record
    without a title stands before every record whose title equals the query
    up to case; no other exception leaves it. *)
Theorem lookup_key_error (course_name : string) (data : list dict) :
  (find_prerequisites course_name data = inl (KeyError "title") <->
   exists before course after,
     data = before ++ course :: after
     /\ course !! "title" = None
     /\ Forall (fun d => exists t, d !! "title" = Some t
                                   /\ Str.lower t <> Str.lower course_name) before)
  /\ (forall e, find_prerequisites course_name data = inl e -> e = KeyError "title").
Proof. apply find_prerequisites_key_error. Qed.

(** X14: two queries that are equal up to case get the same answer when a
    course is found, raise alike, and are told alike that nothing was
    found; only the not-found message repeats the query as it was typed. *)
Theorem lookup_ignores_case (course_name course_name' : string) (data : list dict) :
  Str.lower course_name = Str.lower course_name' ->
  (forall title prereqs source,
     find_prerequisites course_name data = inr (found_message title prereqs source) ->
     find_prerequisites course_name' data = inr (found_message title prereqs source))
  /\ (forall e, find_prerequisites course_name data = inl e ->
                find_prerequisites course_name' data = inl e)
  /\ (find_prerequisites course_name data = inr (not_found_message course_name) ->
      find_prerequisites course_name' data = inr (not_found_message course_name')).
Proof.
  intros Hcase. induction data as [|d data (IHfound & IHraise & IHnone)]; simpl.
  - split; [|split]; [|discriminate|reflexivity].
    intros title prereqs source H. exfalso.
    apply (found_is_not_not_found title prereqs source course_name). congruence.
  - destruct (d !! "title") as [t|];
      [|split; [discriminate | split; [auto | discriminate]]].
    rewrite <- Hcase.
    destruct (decide (Str.lower t = Str.lower course_name)); [|auto].
    split; [auto|]. split; [discriminate|].
    intros H. exfalso.
    apply (found_is_not_not_found t (get d "prerequisites" "Not specified")
             (get d "source" "Unknown") course_name). congruence.
Qed.

Lemma lookup_ignores_case_witness :
  find_prerequisites "INTRO TO ALGORITHMS" World.twice
  = inr (found_message "Intro To Algorithms" "CS 101" "https://a.edu/courses/algo-101").
Proof.
  apply (lookup_ignores_case "intro to algorithms" "INTRO TO ALGORITHMS" World.twice);
    vm_compute; reflexivity.
Defined.

Lemma find_prerequisites_answers (course_name : string) (data : list dict) :
  Forall (fun d => is_Some (d !! "title")) data ->
  exists answer, find_prerequisites course_name data = inr answer.
Proof.
  intros Hdata. induction Hdata as [|d data [t Ht] _ IH]; simpl; [eauto|].
  rewrite Ht. destruct (decide (Str.lower t = Str.lower course_name)); eauto.
Qed.

End ChatbotFacts.

(** ** The orchestrator: [main] *)

Module OrchestratorFacts.
Import Re StrFacts ReFacts PatFacts Soup Scraper.

Lemma for_each_done {X} (body : X -> M unit) (xs : list X) (st : state) :
  (forall x st', (body x st').1 = Done tt) ->
  for_each xs body st = (Done tt, foldl (fun st' x => (body x st').2) st xs).
Proof.
  intros Hbody. revert st. induction xs as [|x xs IH]; intros st; simpl; [reflexivity|].
  unfold bind. specialize (Hbody x st). destruct (body x st) as [r st1].
  simpl in *. subst r. apply IH.
Qed.

Lemma foldl_invariant {X} (I : state -> Prop) (step : state -> X -> state) (xs : list X) :
  (forall st x, x ∈ xs -> I st -> I (step st x)) ->
  forall st, I st -> I (foldl step st xs).
Proof.
  induction xs as [|x xs IH]; intros Hstep st Hst; simpl; [assumption|].
  apply IH.
  - intros st' x' Hin. apply Hstep. now right.
  - apply Hstep; [left | assumption].
Qed.

Lemma discover_done (current_url link : string) (st : state) :
  (discover current_url link st).1 = Done tt.
Proof.
  unfold discover, bind, gets, modify, ret.
  destruct (decide (link ∈ visited_urls st)); [reflexivity|].
  destruct (decide (Url.netloc link = Url.netloc current_url));
    destruct (found Pat.code_like link); reflexivity.
Qed.

(** What one pass through lines 177-185 does to the state. *)
Lemma discover_state (current_url link : string) (st : state) :
  (discover current_url link st).2 =
    if decide (link ∈ visited_urls st) then st
    else
      let st1 := mark_visited link st in
      let st2 := if decide (Url.netloc link = Url.netloc current_url)
                 then enqueue link st1 else st1 in
      if found Pat.code_like link then add_candidate link st2 else st2.
Proof.
  unfold discover, bind, gets, modify, ret.
  destruct (decide (link ∈ visited_urls st)); [reflexivity|].
  destruct (decide (Url.netloc link = Url.netloc current_url));
    destruct (found Pat.code_like link); reflexivity.
Qed.

Section Run.
Variable requests_get : string -> response.
Variable parse : string -> soup.
Variable urljoin : string -> string -> string.
Variable iter : gset string -> list string.

Local Abbreviation get_html := (Scraper.get_html requests_get).
Local Abbreviation find_course_links := (Scraper.find_course_links parse urljoin).
Local Abbreviation scrape_prerequisites := (Scraper.scrape_prerequisites requests_get parse).
Local Abbreviation crawl_page := (Scraper.crawl_page requests_get parse urljoin iter).
Local Abbreviation crawl := (Scraper.crawl requests_get parse urljoin iter).
Local Abbreviation scrape_page := (Scraper.scrape_page requests_get parse).
Local Abbreviation scrape_all := (Scraper.scrape_all requests_get parse iter).
Local Abbreviation main_from := (Scraper.main_from requests_get parse urljoin iter).
Local Abbreviation main := (Scraper.main requests_get parse urljoin iter).
Local Abbreviation links_of := (Scraper.links_of requests_get parse urljoin iter).
Local Abbreviation visit := (Scraper.visit requests_get parse urljoin iter).
Local Abbreviation record_of := (Scraper.record_of requests_get parse).

(** The page behind [url], when the fetch yields one that is not empty. *)
Local Abbreviation page url := (text_or_none (requests_get url)).

Lemma get_html_run (url : string) (st : state) :
  get_html url st = (Done (page url), log_request url st).
Proof. reflexivity. Qed.

Lemma crawl_page_run (url : string) (st : state) :
  crawl_page url st
  = (Done tt, foldl (fun st' link => (discover url link st').2)
                    (log_request url st) (links_of url)).
Proof.
  unfold Scraper.crawl_page, bind, Scraper.links_of. rewrite get_html_run.
  destruct (truthy (page url)); [|reflexivity].
  apply for_each_done. intros link st'. apply discover_done.
Qed.

Lemma crawl_step (fuel : nat) (st : state) (url : string) (rest : list string) :
  queue st = url :: rest ->
  crawl (S fuel) st = crawl fuel (visit url rest st).
Proof.
  intros Hq. simpl. unfold bind at 1. unfold gets. rewrite Hq.
  unfold bind at 1. unfold modify. unfold bind at 1. now rewrite crawl_page_run.
Qed.

Lemma crawl_empty (fuel : nat) (st : state) :
  queue st = [] -> crawl fuel st = (Done tt, st).
Proof. intros Hq. destruct fuel; simpl; unfold bind, gets; now rewrite Hq. Qed.

Lemma crawl_no_fuel (st : state) (url : string) (rest : list string) :
  queue st = url :: rest -> crawl 0 st = (OutOfFuel, st).
Proof. intros Hq. simpl. unfold bind, gets. now rewrite Hq. Qed.

(** The traversal never raises, and an invariant of the loop body holds
    when it stops. *)
Lemma crawl_invariant (I : state -> Prop) :
  (forall url rest st, queue st = url :: rest -> I st -> I (visit url rest st)) ->
  forall fuel st, I st ->
    I (crawl fuel st).2
    /\ ((crawl fuel st).1 = Done tt /\ queue (crawl fuel st).2 = []
        \/ (crawl fuel st).1 = OutOfFuel).
Proof.
  intros Hbody fuel. induction fuel as [|fuel IH]; intros st Hst.
  - destruct (queue st) as [|url rest] eqn:Hq.
    + rewrite (crawl_empty 0 st Hq). simpl. auto.
    + rewrite (crawl_no_fuel st url rest Hq). simpl. auto.
  - destruct (queue st) as [|url rest] eqn:Hq.
    + rewrite (crawl_empty (S fuel) st Hq). simpl. auto.
    + rewrite (crawl_step fuel st url rest Hq). apply IH. now apply Hbody.
Qed.

(** An invariant of the three updates the traversal makes. *)
Lemma visit_invariant (I : state -> Prop) :
  (forall q st, I st -> I (set_queue q st)) ->
  (forall url st, I st -> I (log_request url st)) ->
  (forall url link st, I st -> I (discover url link st).2) ->
  forall url rest st, I st -> I (visit url rest st).
Proof.
  intros Hq Hlog Hdisc url rest st Hst. unfold Scraper.visit.
  apply foldl_invariant; [intros st' link _; apply Hdisc|].
  apply Hlog, Hq, Hst.
Qed.

Lemma record_title (title prereqs source : string) :
  record title prereqs source !! "title" = Some title.
Proof. unfold record. now rewrite lookup_insert_eq. Qed.

Lemma record_prerequisites (title prereqs source : string) :
  record title prereqs source !! "prerequisites" = Some prereqs.
Proof.
  unfold record. rewrite lookup_insert_ne by discriminate. now rewrite lookup_insert_eq.
Qed.

Lemma record_prereqs (title prereqs source : string) :
  record title prereqs source !! "prereqs" = None.
Proof.
  unfold record. rewrite !lookup_insert_ne by discriminate. apply lookup_empty.
Qed.

Lemma record_not_empty (title prereqs source : string) :
  record title prereqs source <> ∅.
Proof. unfold record. apply insert_non_empty. Qed.

Lemma scrape_prerequisites_run (url : string) (st : state) :
  scrape_prerequisites url st = (Done (record_of url), log_request url st).
Proof.
  unfold Scraper.scrape_prerequisites, Scraper.record_of, bind. rewrite get_html_run.
  now destruct (truthy (page url)).
Qed.

Lemma record_of_is_record (url : string) (d : dict) :
  record_of url = Some d -> exists title prereqs, d = record title prereqs url.
Proof.
  unfold Scraper.record_of, extract. destruct (truthy (page url)); [|discriminate].
  intros [= <-]. eauto.
Qed.

Lemma scrape_page_none (url : string) (st : state) :
  record_of url = None -> scrape_page url st = (Done tt, log_request url st).
Proof.
  intros H. unfold Scraper.scrape_page, bind. now rewrite scrape_prerequisites_run, H.
Qed.

(** A record with an empty title or the sentinel is dropped, and the loop
    goes on. *)
Lemma scrape_page_discards (url : string) (d : dict) (st : state) :
  record_of url = Some d -> ~ Spec.emittable d ->
  scrape_page url st = (Done tt, log_request url st).
Proof.
  intros H Hno. destruct (record_of_is_record url d H) as (title & prereqs & ->).
  unfold Scraper.scrape_page, bind. rewrite scrape_prerequisites_run, H.
  rewrite bool_decide_eq_true_2 by apply record_not_empty.
  unfold subscript. rewrite record_title, record_prerequisites. simpl.
  destruct (Str.nonempty title) eqn:Ht; [|reflexivity]. unfold ret.
  destruct (decide (prereqs = "Not specified")) as [->|Hp].
  - now rewrite bool_decide_eq_false_2 by tauto.
  - exfalso. apply Hno. split.
    + rewrite record_title. exact Ht.
    + rewrite record_prerequisites. congruence.
Qed.

(** A record that passes the test of line 193 is appended, and then the
    f-string of line 195 asks for a key the record does not have. *)
Lemma scrape_page_raises (url : string) (d : dict) (st : state) :
  record_of url = Some d -> Spec.emittable d ->
  scrape_page url st
  = (Raised (KeyError "prereqs"), append_record d (log_request url st)).
Proof.
  intros H [Ht Hp]. destruct (record_of_is_record url d H) as (title & prereqs & ->).
  unfold Scraper.scrape_page, bind. rewrite scrape_prerequisites_run, H.
  rewrite bool_decide_eq_true_2 by apply record_not_empty.
  rewrite Ht. unfold subscript. rewrite record_title, record_prerequisites, record_prereqs.
  rewrite record_prerequisites in Hp. simpl. unfold ret.
  rewrite bool_decide_eq_true_2 by congruence. reflexivity.
Qed.

Lemma scrape_page_cases (url : string) (st : state) :
  scrape_page url st = (Done tt, log_request url st)
  \/ exists d, record_of url = Some d /\ Spec.emittable d
               /\ scrape_page url st
                  = (Raised (KeyError "prereqs"), append_record d (log_request url st)).
Proof.
  destruct (record_of url) as [d|] eqn:H; [|left; now apply scrape_page_none].
  destruct (record_of_is_record url d H) as (title & prereqs & ->).
  destruct (Str.nonempty title) eqn:Ht;
    [destruct (decide (prereqs = "Not specified")) as [->|Hp]|].
  - left. apply (scrape_page_discards _ _ _ H). intros [_ Hp].
    now rewrite record_prerequisites in Hp.
  - right. eexists. split; [reflexivity|].
    assert (He : Spec.emittable (record title prereqs url)).
    { split; [now rewrite record_title | rewrite record_prerequisites; congruence]. }
    split; [assumption | now apply scrape_page_raises].
  - left. apply (scrape_page_discards _ _ _ H). intros [Ht' _].
    rewrite record_title in Ht'. simpl in Ht'. congruence.
Qed.

Lemma for_each_cons {X} (body : X -> M unit) (x : X) (xs : list X) (st : state) :
  for_each (x :: xs) body st =
    match body x st with
    | (Done _, st') => for_each xs body st'
    | (Raised e, st') => (Raised e, st')
    | (OutOfFuel, st') => (OutOfFuel, st')
    end.
Proof. reflexivity. Qed.

(** Where the loop of lines 190-197 stops: after the first URL that yields
    a record, or at the end. *)
Lemma scrape_loop (urls : list string) (st : state) :
  (for_each urls scrape_page st
   = (Done tt, foldl (fun st' url => log_request url st') st urls)
   /\ Forall (fun url => forall d, record_of url = Some d -> ~ Spec.emittable d) urls)
  \/ exists skipped url d rest,
       urls = skipped ++ url :: rest
       /\ record_of url = Some d /\ Spec.emittable d
       /\ for_each urls scrape_page st
          = (Raised (KeyError "prereqs"),
             append_record d (foldl (fun st' url => log_request url st') st
                                    (skipped ++ [url]))).
Proof.
  revert st. induction urls as [|url urls IH]; intros st.
  - left. split; [reflexivity | constructor].
  - rewrite !for_each_cons.
    destruct (scrape_page_cases url st) as [Hdone | (d & Hd & He & Hraise)].
    + rewrite Hdone.
      destruct (IH (log_request url st)) as [[Hrun Hall] |
        (skipped & url' & d & rest & -> & Hd & He & Hrun)].
      * left. split; [assumption|]. constructor; [|assumption].
        intros d Hd He. destruct (scrape_page_cases url st) as [_ | (d' & Hd' & He' & Hr)].
        -- rewrite (scrape_page_raises url d st Hd He) in Hdone. discriminate.
        -- rewrite Hr in Hdone. discriminate.
      * right. exists (url :: skipped), url', d, rest. auto.
    + rewrite Hraise. right. exists [], url, d, urls. auto.
Qed.

Lemma requested_foldl_log (urls : list string) (st : state) :
  requested (foldl (fun st' url => log_request url st') st urls) = requested st ++ urls.
Proof.
  revert st. induction urls as [|url urls IH]; intros st; simpl.
  - now rewrite app_nil_r.
  - rewrite IH. simpl. now rewrite <- List.app_assoc.
Qed.

Lemma main_from_unfold (starting_urls : list string) (fuel : nat) :
  main_from starting_urls fuel =
    match crawl fuel (initial starting_urls) with
    | (Done _, st1) =>
        match for_each (iter (course_urls_to_scrape st1)) scrape_page st1 with
        | (Done _, st2) => (Done tt, json_dump (all_prereqs st2) st2)
        | (Raised e, st2) => (Raised e, st2)
        | (OutOfFuel, st2) => (OutOfFuel, st2)
        end
    | (Raised e, st1) => (Raised e, st1)
    | (OutOfFuel, st1) => (OutOfFuel, st1)
    end.
Proof.
  unfold Scraper.main_from, Scraper.scrape_all, save, bind, gets, modify.
  destruct (crawl fuel (initial starting_urls)) as [[[]| |] st1]; [|reflexivity..].
  destruct (for_each (iter (course_urls_to_scrape st1)) scrape_page st1) as [[[]| |] st2];
    reflexivity.
Qed.

Lemma foldl_log_state (urls : list string) (st : state) :
  foldl (fun st' url => log_request url st') st urls
  = State (all_prereqs st) (queue st) (visited_urls st) (course_urls_to_scrape st)
          (requested st ++ urls) (dumped st).
Proof.
  revert st. induction urls as [|url urls IH]; intros st; simpl.
  - rewrite app_nil_r. now destruct st.
  - rewrite IH. simpl. now rewrite <- List.app_assoc.
Qed.

(** The requests of a run are those of the traversal followed by those of
    the scraping loop, which takes the candidates in the order of [iter]
    and stops early only by raising. *)
Lemma main_from_requested (starting_urls : list string) (fuel : nat) :
  let st1 := (crawl fuel (initial starting_urls)).2 in
  exists scraped,
    scraped `prefix_of` iter (course_urls_to_scrape st1)
    /\ requested (main_from starting_urls fuel).2 = requested st1 ++ scraped.
Proof.
  intros st1. rewrite main_from_unfold. subst st1.
  destruct (crawl fuel (initial starting_urls)) as [[[]| |] st1]; simpl;
    try (exists []; split; [apply prefix_nil | now rewrite app_nil_r]).
  destruct (scrape_loop (iter (course_urls_to_scrape st1)) st1)
    as [[-> _] | (skipped & url & d & rest & Heq & _ & _ & ->)].
  - exists (iter (course_urls_to_scrape st1)). split; [reflexivity|].
    now rewrite foldl_log_state.
  - exists (skipped ++ [url]). split.
    + exists rest. rewrite Heq. now rewrite <- List.app_assoc.
    + now rewrite foldl_log_state.
Qed.

(** The traversal leaves the records and the output file alone. *)
Lemma crawl_frame (fuel : nat) (st : state) :
  all_prereqs (crawl fuel st).2 = all_prereqs st
  /\ dumped (crawl fuel st).2 = dumped st.
Proof.
  apply (crawl_invariant
           (fun st' => all_prereqs st' = all_prereqs st /\ dumped st' = dumped st));
    [|auto].
  intros url rest st' _ Hst'. apply visit_invariant; [auto | auto | | exact Hst'].
  clear. intros url link st' Hst'. rewrite discover_state.
  destruct (decide (link ∈ visited_urls st')); [assumption|].
  destruct (decide (Url.netloc link = Url.netloc url));
    destruct (found Pat.code_like link); assumption.
Qed.

Lemma crawl_result (fuel : nat) (st : state) :
  (crawl fuel st).1 = Done tt /\ queue (crawl fuel st).2 = []
  \/ (crawl fuel st).1 = OutOfFuel.
Proof. now apply (crawl_invariant (fun _ => True)). Qed.

(** A run of [main] ends in one of three ways: the traversal runs out of
    fuel; no candidate yields a record that may be written and an empty
    list is saved; or the first candidate that yields one makes [main]
    raise, and nothing is saved. *)
Lemma main_from_outcome (starting_urls : list string) (fuel : nat) :
  let st1 := (crawl fuel (initial starting_urls)).2 in
  let urls := iter (course_urls_to_scrape st1) in
  (crawl fuel (initial starting_urls)).1 = OutOfFuel
  \/ (Forall (fun url => forall d, record_of url = Some d -> ~ Spec.emittable d) urls
      /\ (main_from starting_urls fuel).1 = Done tt
      /\ all_prereqs (main_from starting_urls fuel).2 = []
      /\ dumped (main_from starting_urls fuel).2 = [[]])
  \/ (exists skipped url d rest,
        urls = skipped ++ url :: rest
        /\ record_of url = Some d /\ Spec.emittable d
        /\ (main_from starting_urls fuel).1 = Raised (KeyError "prereqs")
        /\ all_prereqs (main_from starting_urls fuel).2 = [d]
        /\ dumped (main_from starting_urls fuel).2 = []).
Proof.
  intros st1 urls. subst urls st1. rewrite main_from_unfold.
  destruct (crawl_frame fuel (initial starting_urls)) as [Hrecords Hdumped].
  destruct (crawl_result fuel (initial starting_urls)) as [[Hdone _] | Hfuel];
    [|now left]. right.
  destruct (crawl fuel (initial starting_urls)) as [r st1]. simpl in *. subst r.
  destruct (scrape_loop (iter (course_urls_to_scrape st1)) st1)
    as [[-> Hall] | (skipped & url & d & rest & Heq & Hd & He & ->)].
  - left. rewrite foldl_log_state. simpl. rewrite Hrecords, Hdumped. auto.
  - right. exists skipped, url, d, rest. rewrite foldl_log_state. simpl.
    rewrite Hrecords, Hdumped. auto 7.
Qed.

(** C2: every record [main] keeps, and so every record of a list it
    writes, has a title that is not empty and prerequisites other than
    the sentinel; a record that fails this test is dropped and the loop
    goes on without it. *)
Theorem only_emittable_records_kept (starting_urls : list string) (fuel : nat) :
  Forall Spec.emittable (all_prereqs (main_from starting_urls fuel).2)
  /\ Forall (Forall Spec.emittable) (dumped (main_from starting_urls fuel).2)
  /\ (forall url d st,
        record_of url = Some d -> ~ Spec.emittable d ->
        scrape_page url st = (Done tt, log_request url st)
        /\ all_prereqs (log_request url st) = all_prereqs st).
Proof.
  split; [|split].
  - destruct (crawl_frame fuel (initial starting_urls)) as [Hrecords _].
    destruct (main_from_outcome starting_urls fuel)
      as [Hfuel | [(_ & _ & -> & _) | (? & ? & d & ? & _ & _ & He & _ & -> & _)]].
    + rewrite main_from_unfold.
      destruct (crawl fuel (initial starting_urls)) as [r st1]. simpl in *. subst r.
      simpl. rewrite Hrecords. constructor.
    + constructor.
    + constructor; [exact He | constructor].
  - destruct (crawl_frame fuel (initial starting_urls)) as [_ Hdumped].
    destruct (main_from_outcome starting_urls fuel)
      as [Hfuel | [(_ & _ & _ & ->) | (? & ? & d & ? & _ & _ & _ & _ & _ & ->)]].
    + rewrite main_from_unfold.
      destruct (crawl fuel (initial starting_urls)) as [r st1]. simpl in *. subst r.
      simpl. rewrite Hdumped. constructor.
    + repeat constructor.
    + constructor.
  - intros url d st Hd Hno. split; [now apply (scrape_page_discards url d) | reflexivity].
Qed.

Lemma discover_requested (current_url link : string) (st : state) :
  requested (discover current_url link st).2 = requested st.
Proof.
  rewrite discover_state.
  destruct (decide (link ∈ visited_urls st)); [reflexivity|].
  destruct (decide (Url.netloc link = Url.netloc current_url));
    destruct (found Pat.code_like link); reflexivity.
Qed.

Lemma discover_visited (current_url link : string) (st : state) (url : string) :
  url ∈ visited_urls (discover current_url link st).2
  <-> url = link \/ url ∈ visited_urls st.
Proof.
  rewrite discover_state.
  destruct (decide (link ∈ visited_urls st)) as [Hin|Hnew].
  - split; [auto | now intros [-> | H]].
  - destruct (decide (Url.netloc link = Url.netloc current_url));
      destruct (found Pat.code_like link); simpl;
      rewrite elem_of_union, elem_of_singleton; reflexivity.
Qed.

Lemma discover_queue (current_url link : string) (st : state) :
  queue (discover current_url link st).2 = queue st
  \/ ((link ∉ visited_urls st) /\ Url.netloc link = Url.netloc current_url
      /\ queue (discover current_url link st).2 = queue st ++ [link]).
Proof.
  rewrite discover_state.
  destruct (decide (link ∈ visited_urls st)) as [Hin|Hnew]; [now left|].
  destruct (decide (Url.netloc link = Url.netloc current_url));
    destruct (found Pat.code_like link); simpl; auto.
Qed.

Lemma discover_candidates (current_url link : string) (st : state) (url : string) :
  url ∈ course_urls_to_scrape (discover current_url link st).2
  <-> url ∈ course_urls_to_scrape st
      \/ (url = link /\ (link ∉ visited_urls st) /\ found Pat.code_like link = true).
Proof.
  rewrite discover_state.
  destruct (decide (link ∈ visited_urls st)) as [Hin|Hnew].
  - split; [auto | now intros [H | (_ & H & _)]].
  - destruct (decide (Url.netloc link = Url.netloc current_url));
      destruct (found Pat.code_like link); simpl;
      rewrite ?elem_of_union, ?elem_of_singleton; intuition congruence.
Qed.

Lemma discover_once (current_url link : string) (st : state) :
  Spec.once st -> Spec.once (discover current_url link st).2.
Proof.
  intros [Hnodup Hvisited]. unfold Spec.once. rewrite discover_requested.
  destruct (discover_queue current_url link st) as [-> | (Hnew & _ & ->)].
  - split; [assumption|]. intros url Hurl. apply discover_visited. auto.
  - split.
    + rewrite List.app_assoc. apply NoDup_app. split; [assumption|].
      split; [|apply NoDup_singleton].
      intros url Hurl Hlink. apply list_elem_of_singleton in Hlink as ->. auto.
    + intros url Hurl. apply discover_visited. rewrite List.app_assoc in Hurl.
      apply elem_of_app in Hurl as [Hurl | Hurl]; [auto|].
      apply list_elem_of_singleton in Hurl. auto.
Qed.

Lemma visit_once (url : string) (rest : list string) (st : state) :
  queue st = url :: rest -> Spec.once st -> Spec.once (visit url rest st).
Proof.
  intros Hq [Hnodup Hvisited]. unfold Scraper.visit.
  apply foldl_invariant; [intros st' link _; apply discover_once|].
  unfold Spec.once. simpl. rewrite Hq in Hnodup, Hvisited.
  rewrite <- List.app_assoc. simpl. split; assumption.
Qed.

Lemma initial_once (starting_urls : list string) :
  NoDup starting_urls -> Spec.once (initial starting_urls).
Proof.
  intros Hnodup. split; simpl; [assumption|]. intros url. now rewrite elem_of_list_to_set.
Qed.

(** C3, as the code has it: the traversal requests no URL twice and the
    scraping loop requests no URL twice, and what the scraping loop requests
    are candidates. *)
Theorem fetched_once_per_stage (starting_urls : list string) (fuel : nat) :
  Spec.enumerates iter -> NoDup starting_urls ->
  let st1 := (crawl fuel (initial starting_urls)).2 in
  NoDup (requested st1)
  /\ exists scraped,
       requested (main_from starting_urls fuel).2 = requested st1 ++ scraped
       /\ NoDup scraped
       /\ forall url, url ∈ scraped -> url ∈ course_urls_to_scrape st1.
Proof.
  intros Hiter Hseeds st1. split.
  - destruct (crawl_invariant Spec.once visit_once fuel (initial starting_urls)
                (initial_once _ Hseeds)) as [[Hnodup _] _].
    now apply NoDup_app in Hnodup as [Hnodup _].
  - destruct (main_from_requested starting_urls fuel) as (scraped & [rest Hpre] & Hreq).
    exists scraped. split; [exact Hreq|].
    destruct (Hiter (course_urls_to_scrape st1)) as [Hnodup Hmem].
    fold st1 in Hpre. rewrite Hpre in Hnodup, Hmem. split.
    + now apply NoDup_app in Hnodup as [Hnodup _].
    + intros url Hurl. apply Hmem. apply elem_of_app. now left.
Qed.

Lemma foldl_discover_requested (current_url : string) (links : list string) (st : state) :
  requested (foldl (fun st' link => (discover current_url link st').2) st links)
  = requested st.
Proof.
  revert st. induction links as [|link links IH]; intros st; simpl; [reflexivity|].
  rewrite IH. apply discover_requested.
Qed.

Lemma foldl_discover_visited (current_url : string) (links : list string) (st : state)
    (url : string) :
  url ∈ visited_urls (foldl (fun st' link => (discover current_url link st').2) st links)
  <-> url ∈ links \/ url ∈ visited_urls st.
Proof.
  revert st. induction links as [|link links IH]; intros st; simpl.
  - split; [auto | intros [H | H]; [now apply elem_of_nil in H | assumption]].
  - rewrite IH, discover_visited, elem_of_cons. tauto.
Qed.

Lemma requested_visit (url : string) (rest : list string) (st : state) :
  requested (visit url rest st) = requested st ++ [url].
Proof. unfold Scraper.visit. now rewrite foldl_discover_requested. Qed.

Lemma visited_visit (url : string) (rest : list string) (st : state) (url' : string) :
  url' ∈ visited_urls (visit url rest st)
  <-> url' ∈ links_of url \/ url' ∈ visited_urls st.
Proof. unfold Scraper.visit. now rewrite foldl_discover_visited. Qed.

Lemma discover_seeds_apart (seeds : list string) (current_url link : string) (st : state) :
  Spec.seeds_apart seeds st -> Spec.seeds_apart seeds (discover current_url link st).2.
Proof.
  intros [Hvisited Hapart]. split; intros s Hs.
  - apply discover_visited. auto.
  - rewrite discover_candidates. intros [Hc | (-> & Hnew & _)].
    + now apply (Hapart s).
    + apply Hnew. now apply Hvisited.
Qed.

Lemma crawl_seeds_apart (seeds : list string) (fuel : nat) :
  Spec.seeds_apart seeds (crawl fuel (initial seeds)).2.
Proof.
  apply (crawl_invariant (Spec.seeds_apart seeds)).
  - intros url rest st _ Hst.
    apply visit_invariant; [auto | auto | apply discover_seeds_apart | exact Hst].
  - split; simpl; intros s Hs; [now apply elem_of_list_to_set | apply not_elem_of_empty].
Qed.

Lemma discover_coded (seeds : list string) (current_url link : string) (st : state) :
  Spec.coded_are_candidates seeds st ->
  Spec.coded_are_candidates seeds (discover current_url link st).2.
Proof.
  intros Hst url Hurl Hcode. rewrite discover_candidates.
  apply discover_visited in Hurl as [-> | Hurl].
  - destruct (decide (link ∈ visited_urls st)) as [Hin | Hnew].
    + destruct (Hst link Hin Hcode); auto.
    + auto.
  - destruct (Hst url Hurl Hcode); auto.
Qed.

Lemma visit_links_are_visited (url : string) (rest : list string) (st : state) :
  Spec.links_are_visited links_of st -> Spec.links_are_visited links_of (visit url rest st).
Proof.
  intros Hst page link Hpage Hlink. apply visited_visit.
  rewrite requested_visit in Hpage. apply elem_of_app in Hpage as [Hpage | Hpage].
  - right. now apply (Hst page).
  - apply list_elem_of_singleton in Hpage as ->. now left.
Qed.

(** Every link found on a page the traversal has requested is visited, and
    is a candidate when it looks like a course page and is not a seed. *)
Lemma crawl_candidates (seeds : list string) (fuel : nat) :
  let st1 := (crawl fuel (initial seeds)).2 in
  Spec.coded_are_candidates seeds st1 /\ Spec.links_are_visited links_of st1.
Proof.
  apply (crawl_invariant
           (fun st => Spec.coded_are_candidates seeds st
                      /\ Spec.links_are_visited links_of st)).
  - intros url rest st _ [Hcoded Hlinks]. split.
    + apply visit_invariant; [auto | auto | apply discover_coded | exact Hcoded].
    + now apply visit_links_are_visited.
  - split.
    + intros url Hurl _. right. now apply elem_of_list_to_set in Hurl.
    + intros page link Hpage _. now apply elem_of_nil in Hpage.
Qed.

Lemma discover_contained (seeds : list string) (current_url link : string) (st : state) :
  Spec.at_seed_location seeds current_url ->
  (forall url, url ∈ requested st ++ queue st -> Spec.at_seed_location seeds url) ->
  forall url, url ∈ requested (discover current_url link st).2
                    ++ queue (discover current_url link st).2 ->
    Spec.at_seed_location seeds url.
Proof.
  intros (s & Hs & Hloc) Hst url. rewrite discover_requested.
  destruct (discover_queue current_url link st) as [-> | (_ & Hsame & ->)]; [apply Hst|].
  rewrite List.app_assoc, elem_of_app. intros [Hurl | Hurl]; [now apply Hst|].
  apply list_elem_of_singleton in Hurl as ->. exists s. split; [assumption | congruence].
Qed.

(** The traversal stays on the network locations of its seeds. *)
Lemma crawl_contained (seeds : list string) (fuel : nat) :
  let st1 := (crawl fuel (initial seeds)).2 in
  forall url, url ∈ requested st1 ++ queue st1 -> Spec.at_seed_location seeds url.
Proof.
  apply (crawl_invariant
           (fun st => forall url, url ∈ requested st ++ queue st ->
                                  Spec.at_seed_location seeds url)).
  - intros url rest st Hq Hst. unfold Scraper.visit.
    apply foldl_invariant.
    + intros st' link _. apply discover_contained. apply Hst. rewrite Hq.
      apply elem_of_app. right. left.
    + simpl. intros url'. rewrite <- List.app_assoc. simpl. rewrite <- Hq. apply Hst.
  - simpl. intros url Hurl. exists url. auto.
Qed.

Lemma links_of_elem (url html link : string) :
  Spec.enumerates iter -> page url = Some html -> html <> "" ->
  link ∈ find_course_links html url -> link ∈ links_of url.
Proof.
  intros Hiter Hpage Hhtml Hlink. unfold Scraper.links_of. rewrite Hpage. simpl.
  apply nonempty_true in Hhtml. rewrite Hhtml. now apply Hiter.
Qed.

(** C4, as the code has it: a link whose network location differs from
    that of the page it was found on is not queued, so the traversal never
    leaves the network locations of the seeds, while the scheme plays no
    part; and every link found on a fetched page that contains a
    course-code-like substring is a candidate when the traversal stops. *)
Theorem offsite_links_are_not_followed (fuel : nat) :
  Spec.enumerates iter ->
  let st1 := (crawl fuel (initial STARTING_URLS)).2 in
  (forall current_url link st,
     Url.netloc link <> Url.netloc current_url ->
     queue (discover current_url link st).2 = queue st)
  /\ (forall url, url ∈ requested st1 ++ queue st1 ->
        Spec.at_seed_location STARTING_URLS url)
  /\ (forall url html link,
        url ∈ requested st1 -> page url = Some html -> html <> "" ->
        link ∈ find_course_links html url -> occurs Pat.code_like link ->
        link ∈ course_urls_to_scrape st1).
Proof.
  intros Hiter st1. split; [|split].
  - intros current_url link st Hne.
    destruct (discover_queue current_url link st) as [H | (_ & Hsame & _)];
      [exact H | contradiction].
  - apply crawl_contained.
  - intros url html link Hurl Hpage Hhtml Hlink Hcode.
    destruct (crawl_candidates STARTING_URLS fuel) as [Hcoded Hlinks].
    apply found_occurs in Hcode.
    destruct (Hcoded link) as [Hc | Hseed]; [|exact Hcode|exact Hc|].
    + apply (Hlinks url link Hurl). now apply (links_of_elem url html).
    + exfalso. revert Hcode.
      repeat (apply elem_of_cons in Hseed as [-> | Hseed]; [vm_compute; discriminate|]).
      now apply elem_of_nil in Hseed.
Qed.

(** C10: the seeds are marked visited before the traversal starts, a link
    that is already visited changes nothing, and so no seed is ever a
    candidate or requested by the scraping loop, whatever it looks like. *)
Theorem seeds_are_never_candidates (starting_urls : list string) (fuel : nat) :
  Spec.enumerates iter ->
  let st1 := (crawl fuel (initial starting_urls)).2 in
  visited_urls (initial starting_urls) = list_to_set starting_urls
  /\ (forall current_url link st,
        link ∈ visited_urls st -> discover current_url link st = (Done tt, st))
  /\ (forall s, s ∈ starting_urls -> s ∉ course_urls_to_scrape st1)
  /\ exists scraped,
       requested (main_from starting_urls fuel).2 = requested st1 ++ scraped
       /\ forall s, s ∈ starting_urls -> s ∉ scraped.
Proof.
  intros Hiter st1. split; [reflexivity|]. split; [|split].
  - intros current_url link st Hin.
    pose proof (discover_done current_url link st) as Hdone.
    pose proof (discover_state current_url link st) as Hstate.
    rewrite decide_True in Hstate by assumption.
    destruct (discover current_url link st) as [r st']. simpl in *. congruence.
  - apply crawl_seeds_apart.
  - destruct (main_from_requested starting_urls fuel) as (scraped & [rest Hpre] & Hreq).
    exists scraped. split; [exact Hreq|]. intros s Hs Hin.
    apply (proj2 (crawl_seeds_apart starting_urls fuel) s Hs).
    apply (Hiter (course_urls_to_scrape st1)). fold st1 in Hpre. rewrite Hpre.
    apply elem_of_app. now left.
Qed.

(** C8, as the code has it: when [requests.get] raises or the status is
    400..599, [get_html] returns [None] and raises nothing; the traversal
    then goes on with the rest of the queue and the scraping loop with the
    rest of the candidates, the URL being logged and nothing else changed. *)
Theorem failed_fetch_is_skipped (url : string) :
  Spec.fetch_fails (requests_get url) ->
  (forall st, get_html url st = (Done None, log_request url st))
  /\ (forall fuel st rest,
        queue st = url :: rest ->
        crawl (S fuel) st = crawl fuel (log_request url (set_queue rest st)))
  /\ (forall urls st,
        for_each (url :: urls) scrape_page st
        = for_each urls scrape_page (log_request url st)).
Proof.
  intros Hfail.
  assert (Hpage : page url = None).
  { destruct Hfail as [-> | (status & text & -> & Hlo & Hhi)]; [reflexivity|].
    unfold text_or_none.
    apply Nat.leb_le in Hlo. apply Nat.ltb_lt in Hhi. now rewrite Hlo, Hhi. }
  split; [|split].
  - intros st. now rewrite get_html_run, Hpage.
  - intros fuel st rest Hq. rewrite (crawl_step fuel st url rest Hq).
    unfold Scraper.visit, Scraper.links_of. now rewrite Hpage.
  - intros urls st. rewrite for_each_cons, scrape_page_none; [reflexivity|].
    unfold Scraper.record_of. now rewrite Hpage.
Qed.

Lemma length_le_size (urls : list string) (U : gset string) :
  NoDup urls -> (forall url, url ∈ urls -> url ∈ U) -> length urls <= size U.
Proof.
  intros Hnodup Hsub. apply (submseteq_length urls (elements U)).
  apply NoDup_submseteq; [assumption|].
  intros url Hurl. apply elem_of_elements. now apply Hsub.
Qed.

Lemma crawl_enough_fuel (U : gset string) :
  (forall url link, link ∈ links_of url -> link ∈ U) ->
  forall fuel st,
    Spec.once st -> (forall url, url ∈ visited_urls st -> url ∈ U) ->
    size U < fuel + length (requested st) ->
    (crawl fuel st).1 = Done tt.
Proof.
  intros Hlinks fuel. induction fuel as [|fuel IH]; intros st Honce HU Hfuel.
  - destruct (queue st) as [|url rest] eqn:Hq; [now rewrite crawl_empty|].
    exfalso. destruct Honce as [Hnodup Hvisited].
    pose proof (length_le_size _ U Hnodup (fun u Hu => HU u (Hvisited u Hu))) as Hlen.
    rewrite List.length_app, Hq in Hlen. simpl in Hlen, Hfuel. lia.
  - destruct (queue st) as [|url rest] eqn:Hq; [now rewrite crawl_empty|].
    rewrite (crawl_step fuel st url rest Hq). apply IH.
    + now apply visit_once.
    + intros url' Hurl'. apply visited_visit in Hurl' as [Hurl' | Hurl']; eauto.
    + rewrite requested_visit, List.length_app. simpl. lia.
Qed.

(** X4: when the links of all pages lie in a finite set of URLs that also
    holds the seeds, the traversal drains its queue within as many turns as
    the set has members, although the loop has no bound of its own. *)
Theorem crawl_terminates (U : gset string) (starting_urls : list string) :
  NoDup starting_urls ->
  (forall s, s ∈ starting_urls -> s ∈ U) ->
  (forall url link, link ∈ links_of url -> link ∈ U) ->
  (crawl (S (size U)) (initial starting_urls)).1 = Done tt
  /\ queue (crawl (S (size U)) (initial starting_urls)).2 = [].
Proof.
  intros Hnodup Hseeds Hlinks.
  assert (Hdone : (crawl (S (size U)) (initial starting_urls)).1 = Done tt).
  { apply (crawl_enough_fuel U Hlinks).
    - now apply initial_once.
    - simpl. intros url Hurl. apply Hseeds. now apply elem_of_list_to_set in Hurl.
    - simpl. lia. }
  split; [exact Hdone|].
  destruct (crawl_result (S (size U)) (initial starting_urls)) as [[_ Hq] | Hfuel];
    [exact Hq | congruence].
Qed.

(** The traversal raises nothing at all. *)
Lemma crawl_never_raises (fuel : nat) (st : state) (e : exn) :
  (crawl fuel st).1 <> Raised e.
Proof. destruct (crawl_result fuel st) as [[-> _] | ->]; discriminate. Qed.

(** With libraries that return, a run of [main] ends in one of three
    ways: out of fuel, with an empty list written, or with [KeyError]. *)
Lemma main_from_cases (starting_urls : list string) (fuel : nat) :
  let run := main_from starting_urls fuel in
  (run.1 = OutOfFuel /\ all_prereqs run.2 = [] /\ dumped run.2 = [])
  \/ (run.1 = Done tt /\ all_prereqs run.2 = [] /\ dumped run.2 = [[]])
  \/ (run.1 = Raised (KeyError "prereqs")
      /\ (exists d, all_prereqs run.2 = [d] /\ Spec.emittable d)
      /\ dumped run.2 = []).
Proof.
  intros run. subst run.
  destruct (main_from_outcome starting_urls fuel)
    as [Hfuel | [(_ & Hdone & Hrec & Hdump) | (? & ? & d & ? & _ & _ & He & Hr & Hrec & Hdump)]].
  - left. rewrite main_from_unfold.
    destruct (crawl_frame fuel (initial starting_urls)) as [Hrec Hdump].
    destruct (crawl fuel (initial starting_urls)) as [r st1]. simpl in *. subst r.
    simpl. auto.
  - right; left. auto.
  - right; right. eauto.
Qed.

(** X3: [main] never writes a list with a record in it. When it returns,
    it has kept no record and has written the empty list, once. When it
    does not return, it has written nothing, and it holds a record only
    when it has stopped with [KeyError] on [prereqs]: then exactly one,
    which passes the test of line 193. *)
Theorem main_writes_nothing_or_an_empty_list (starting_urls : list string) (fuel : nat) :
  let run := main_from starting_urls fuel in
  (run.1 = Done tt /\ all_prereqs run.2 = [] /\ dumped run.2 = [[]])
  \/ (run.1 <> Done tt /\ dumped run.2 = []
      /\ (all_prereqs run.2 = []
          \/ (run.1 = Raised (KeyError "prereqs")
              /\ exists d, all_prereqs run.2 = [d] /\ Spec.emittable d))).
Proof.
  intros run. subst run.
  destruct (main_from_cases starting_urls fuel)
    as [(Hr & Hrec & Hd) | [(Hr & Hrec & Hd) | (Hr & Hrec & Hd)]].
  - right. rewrite Hr. split; [discriminate | auto].
  - left. auto.
  - right. split; [rewrite Hr; discriminate | auto].
Qed.

Lemma links_of_inv (url link : string) :
  Spec.enumerates iter -> link ∈ links_of url ->
  exists html, page url = Some html /\ html <> ""
               /\ link ∈ find_course_links html url.
Proof.
  intros Hiter. unfold Scraper.links_of. destruct (page url) as [html|] eqn:Hpage; simpl.
  - destruct (Str.nonempty html) eqn:Hhtml.
    + intros Hlink. exists html. split; [reflexivity|].
      split; [now apply nonempty_true | now apply Hiter].
    + intros H. now apply elem_of_nil in H.
  - intros H. now apply elem_of_nil in H.
Qed.

Lemma discover_candidates_are_links (seeds : list string) (current_url link : string)
    (st : state) :
  current_url ∈ requested st -> link ∈ links_of current_url ->
  More.candidates_are_links links_of seeds st ->
  More.candidates_are_links links_of seeds (discover current_url link st).2.
Proof.
  intros Hcur Hlink [Hseeds Hcands]. split.
  - intros s Hs. apply discover_visited. auto.
  - intros url. rewrite discover_candidates, discover_requested.
    intros [Hold | (-> & Hnew & Hcode)]; [now apply Hcands|].
    split; [|split; [assumption | eauto]].
    intros Hs. apply Hnew. now apply Hseeds.
Qed.

Lemma crawl_candidates_are_links (seeds : list string) (fuel : nat) :
  More.candidates_are_links links_of seeds (crawl fuel (initial seeds)).2.
Proof.
  apply (crawl_invariant (More.candidates_are_links links_of seeds)).
  - intros url rest st _ Hst. unfold Scraper.visit.
    apply (foldl_invariant
             (fun st' => url ∈ requested st'
                         /\ More.candidates_are_links links_of seeds st')
             (fun st' link => (discover url link st').2) (links_of url)).
    + intros st' link Hlink [Hurl Hst']. rewrite discover_requested.
      split; [assumption | now apply discover_candidates_are_links].
    + simpl. split; [apply elem_of_app; right; left|].
      destruct Hst as [Hseeds Hcands]. split; [exact Hseeds|].
      intros c Hc. destruct (Hcands c Hc) as (Hns & Hcode & p & Hpage & Hl).
      split; [assumption|]. split; [assumption|]. exists p.
      split; [apply elem_of_app; now left | assumption].
  - split; [intros s Hs; now apply elem_of_list_to_set|].
    intros url Hurl. now apply not_elem_of_empty in Hurl.
Qed.

(** X5: when the traversal stops, the candidates are exactly the links
    found on the pages it fetched that have two digits side by side and are
    not seeds. *)
Theorem candidates_are_the_coded_links (starting_urls : list string) (fuel : nat) :
  Spec.enumerates iter ->
  let st1 := (crawl fuel (initial starting_urls)).2 in
  forall url,
    url ∈ course_urls_to_scrape st1 <->
    (url ∉ starting_urls) /\ More.adjacent_digits url
    /\ exists found_on html,
         found_on ∈ requested st1 /\ page found_on = Some html /\ html <> ""
         /\ url ∈ find_course_links html found_on.
Proof.
  intros Hiter st1 url. split.
  - intros Hurl.
    destruct (proj2 (crawl_candidates_are_links starting_urls fuel) url Hurl)
      as (Hns & Hcode & p & Hpage & Hlink).
    split; [assumption|]. split; [now apply code_like_two_digits, found_occurs|].
    destruct (links_of_inv p url Hiter Hlink) as (html & Hhtml & Hne & Hin).
    now exists p, html.
  - intros (Hns & Hdigits & p & html & Hpage & Hhtml & Hne & Hin).
    destruct (crawl_candidates starting_urls fuel) as [Hcoded Hlinks].
    destruct (Hcoded url) as [Hc | Hs]; [| |exact Hc|contradiction].
    + apply (Hlinks p url Hpage). now apply (links_of_elem p html).
    + now apply found_occurs, code_like_two_digits.
Qed.

Lemma explained_mono (seeds pages pages' : list string) (url : string) :
  (forall p, p ∈ pages -> p ∈ pages') ->
  More.explained links_of seeds pages url -> More.explained links_of seeds pages' url.
Proof.
  intros Hsub [Hs | (p & Hpage & Hlink & Hloc)]; [now left|].
  right. exists p. auto.
Qed.

Lemma snoc_eq_split {X} (l before after : list X) (x u : X) :
  l ++ [x] = before ++ u :: after ->
  (after = [] /\ before = l /\ u = x)
  \/ exists after', after = after' ++ [x] /\ l = before ++ u :: after'.
Proof.
  destruct after as [|y after' _] using rev_ind; intros Heq.
  - left. apply app_inj_tail in Heq as [-> ->]. auto.
  - right. exists after'.
    change (before ++ u :: after' ++ [y]) with (before ++ (u :: after') ++ [y]) in Heq.
    rewrite List.app_assoc in Heq. apply app_inj_tail in Heq as [-> ->]. auto.
Qed.

Lemma discover_follows_links (seeds : list string) (current_url link : string) (st : state) :
  current_url ∈ requested st -> link ∈ links_of current_url ->
  More.follows_links links_of seeds st ->
  More.follows_links links_of seeds (discover current_url link st).2.
Proof.
  intros Hcur Hlink [Hreq Hqueue]. unfold More.follows_links.
  rewrite discover_requested. split; [exact Hreq|].
  destruct (discover_queue current_url link st) as [-> | (_ & Hloc & ->)]; [exact Hqueue|].
  intros url Hurl. apply elem_of_app in Hurl as [Hurl | Hurl]; [now apply Hqueue|].
  apply list_elem_of_singleton in Hurl as ->. right. now exists current_url.
Qed.

Lemma crawl_follows_links (starting_urls : list string) (fuel : nat) :
  More.follows_links links_of starting_urls (crawl fuel (initial starting_urls)).2.
Proof.
  apply (crawl_invariant (More.follows_links links_of starting_urls)).
  - intros url rest st Hq [Hreq Hqueue]. unfold Scraper.visit.
    apply (foldl_invariant
             (fun st' => url ∈ requested st'
                         /\ More.follows_links links_of starting_urls st')
             (fun st' link => (discover url link st').2) (links_of url)).
    + intros st' link Hlink [Hurl Hst']. rewrite discover_requested.
      split; [assumption | now apply discover_follows_links].
    + simpl. split; [apply elem_of_app; right; left|]. split; simpl.
      * intros before u after Heq.
        apply snoc_eq_split in Heq as [(-> & -> & ->) | (after' & -> & Heq)].
        -- apply Hqueue. rewrite Hq. left.
        -- now apply (Hreq before u after').
      * intros u Hu. apply (explained_mono starting_urls (requested st)).
        -- intros p Hpage. apply elem_of_app. now left.
        -- apply Hqueue. rewrite Hq. now right.
  - split; simpl.
    + intros before url after Heq. now destruct before.
    + intros url Hurl. now left.
Qed.

Lemma foldl_discover_queue (current_url : string) (links : list string) (st : state) :
  exists new,
    queue (foldl (fun st' link => (discover current_url link st').2) st links)
    = queue st ++ new.
Proof.
  revert st. induction links as [|link links IH]; intros st; simpl.
  - exists []. now rewrite app_nil_r.
  - destruct (IH (discover current_url link st).2) as [new ->].
    destruct (discover_queue current_url link st) as [-> | (_ & _ & ->)]; [eauto|].
    exists ([link] ++ new). now rewrite List.app_assoc.
Qed.

(** A turn of the loop adds what it queues at the end of the queue. *)
Lemma visit_appends (url : string) (rest : list string) (st : state) :
  exists new, queue (visit url rest st) = rest ++ new.
Proof.
  unfold Scraper.visit.
  destruct (foldl_discover_queue url (links_of url) (log_request url (set_queue rest st)))
    as [new ->].
  now exists new.
Qed.

(** X6: the traversal is first in, first out, and it follows links only.
    From any state on, what the traversal requests next, followed by what
    is then in the queue, is the queue it started from followed by what was
    queued since: URLs are requested in the order of the queue, before
    anything queued later. And every URL requested is a seed or a link,
    with the network location of its page, found on a page requested
    before it. *)
Theorem traversal_is_first_in_first_out (starting_urls : list string) (fuel : nat) :
  (forall st more,
     exists done later,
       requested (crawl more st).2 = requested st ++ done
       /\ done ++ queue (crawl more st).2 = queue st ++ later)
  /\ More.follows_links links_of starting_urls (crawl fuel (initial starting_urls)).2.
Proof.
  split; [|apply crawl_follows_links].
  intros st more.
  apply (crawl_invariant
           (fun st' => exists done later,
              requested st' = requested st ++ done
              /\ done ++ queue st' = queue st ++ later)).
  - intros url rest st' Hq (done & later & Hreq & Hqueue).
    destruct (visit_appends url rest st') as [new Hnew].
    exists (done ++ [url]), (later ++ new). rewrite requested_visit, Hreq, Hnew. split.
    + now rewrite <- List.app_assoc.
    + rewrite Hq in Hqueue. rewrite (List.app_assoc (queue st)), <- Hqueue.
      rewrite <- !List.app_assoc. reflexivity.
  - exists [], []. now rewrite !app_nil_r.
Qed.

Lemma discover_passed_over (url current_url link : string) (st : state) :
  More.passed_over url st -> More.passed_over url (discover current_url link st).2.
Proof.
  intros [Hvisited Hout]. split; [apply discover_visited; auto|].
  rewrite discover_requested.
  destruct (discover_queue current_url link st) as [-> | (Hnew & _ & ->)]; [exact Hout|].
  rewrite List.app_assoc, elem_of_app. intros [Hin | Hin]; [contradiction|].
  apply list_elem_of_singleton in Hin as ->. contradiction.
Qed.

(** X7: a link found first on a page of another network location is
    marked visited without being queued, and a URL in that position is
    never requested by the traversal: later pages that link to it, also
    pages of its own location, find it visited already. *)
Theorem passed_over_is_never_fetched (url : string) :
  (forall current_url st,
     Spec.once st -> url ∉ visited_urls st ->
     Url.netloc url <> Url.netloc current_url ->
     More.passed_over url (discover current_url url st).2)
  /\ (forall fuel st,
        More.passed_over url st ->
        More.passed_over url (crawl fuel st).2
        /\ url ∉ requested (crawl fuel st).2).
Proof.
  split.
  - intros current_url st [_ Hvisited] Hnew Hloc. split.
    + apply discover_visited. now left.
    + rewrite discover_requested.
      destruct (discover_queue current_url url st) as [-> | (_ & Hsame & _)];
        [|contradiction].
      intros Hin. apply Hnew. now apply Hvisited.
  - intros fuel st Hst.
    assert (Hend : More.passed_over url (crawl fuel st).2).
    { apply (crawl_invariant (More.passed_over url)); [|exact Hst].
      clear. intros current_url rest st Hq [Hvisited Hout]. unfold Scraper.visit.
      apply foldl_invariant; [intros st' link _; apply discover_passed_over|].
      split; [exact Hvisited|]. simpl. rewrite <- List.app_assoc. simpl.
      now rewrite <- Hq. }
    split; [exact Hend|]. destruct Hend as [_ Hout].
    intros Hin. apply Hout. apply elem_of_app. now left.
Qed.

(** X8: a page at a URL that ends with a slash, with no [h1], [h2], [h3]
    and no [title] element, gets its title from the empty last segment of
    the URL, and the scraping loop drops it whatever it says about
    prerequisites. *)
Theorem trailing_slash_page_is_dropped (url html : string) (st : state) :
  page (url +:+ "/") = Some html -> html <> "" ->
  find (named ["h1"; "h2"; "h3"]) (parse html) = None ->
  find (named ["title"]) (parse html) = None ->
  course_title (url +:+ "/") (parse html) = ""
  /\ scrape_page (url +:+ "/") st = (Done tt, log_request (url +:+ "/") st).
Proof.
  intros Hpage Hhtml Hh Ht.
  destruct (ExtractorFacts.trailing_slash_no_title url (parse html) Hh Ht) as [Htitle Hno].
  split; [exact Htitle|].
  apply (scrape_page_discards _ (extract (url +:+ "/") (parse html))); [|exact Hno].
  unfold Scraper.record_of. rewrite Hpage. simpl.
  apply nonempty_true in Hhtml. now rewrite Hhtml.
Qed.

Lemma crawl_visited_are_found (seeds : list string) (fuel : nat) :
  forall url, url ∈ visited_urls (crawl fuel (initial seeds)).2 ->
    url ∈ seeds \/ exists found_on, found_on ∈ requested (crawl fuel (initial seeds)).2
                                    /\ url ∈ links_of found_on.
Proof.
  apply (crawl_invariant
           (fun st => forall url, url ∈ visited_urls st ->
              url ∈ seeds \/ exists found_on, found_on ∈ requested st
                                              /\ url ∈ links_of found_on)).
  - intros current_url rest st _ Hst. unfold Scraper.visit.
    apply (foldl_invariant
             (fun st' => current_url ∈ requested st'
                /\ forall url, url ∈ visited_urls st' ->
                     url ∈ seeds \/ exists found_on, found_on ∈ requested st'
                                                     /\ url ∈ links_of found_on)
             (fun st' link => (discover current_url link st').2) (links_of current_url)).
    + intros st' link Hlink [Hcur Hst']. rewrite discover_requested.
      split; [assumption|]. intros url Hurl.
      apply discover_visited in Hurl as [-> | Hurl]; [eauto | now apply Hst'].
    + simpl. split; [apply elem_of_app; right; left|]. intros url Hurl.
      destruct (Hst url Hurl) as [Hs | (p & Hp & Hl)]; [now left|].
      right. exists p. split; [apply elem_of_app; now left | assumption].
  - simpl. intros url Hurl. left. now apply elem_of_list_to_set in Hurl.
Qed.

(** X11: when the traversal stops, the visited set holds exactly the seeds
    and the links found on the pages it fetched; it is the set of URLs
    seen, not of URLs fetched. *)
Theorem visited_are_the_seeds_and_links (starting_urls : list string) (fuel : nat) :
  Spec.enumerates iter ->
  let st1 := (crawl fuel (initial starting_urls)).2 in
  forall url,
    url ∈ visited_urls st1 <->
    url ∈ starting_urls
    \/ exists found_on html,
         found_on ∈ requested st1 /\ page found_on = Some html /\ html <> ""
         /\ url ∈ find_course_links html found_on.
Proof.
  intros Hiter st1 url. split.
  - intros Hurl.
    destruct (crawl_visited_are_found starting_urls fuel url Hurl)
      as [Hs | (p & Hp & Hl)]; [now left|].
    destruct (links_of_inv p url Hiter Hl) as (html & Hhtml & Hne & Hin).
    right. now exists p, html.
  - intros [Hs | (p & html & Hp & Hhtml & Hne & Hin)].
    + now apply (proj1 (crawl_seeds_apart starting_urls fuel)).
    + apply (proj2 (crawl_candidates starting_urls fuel) p url Hp).
      now apply (links_of_elem p html).
Qed.

Lemma scrape_loop_raised (urls : list string) (st st' : state) (e : exn) :
  for_each urls scrape_page st = (Raised e, st') ->
  exists skipped url d rest,
    urls = skipped ++ url :: rest
    /\ Forall (fun u => forall d', record_of u = Some d' -> ~ Spec.emittable d') skipped
    /\ record_of url = Some d /\ Spec.emittable d
    /\ e = KeyError "prereqs"
    /\ st' = append_record d (foldl (fun s u => log_request u s) st (skipped ++ [url])).
Proof.
  revert st. induction urls as [|url urls IH]; intros st; [discriminate|].
  rewrite for_each_cons.
  destruct (scrape_page_cases url st) as [Hdone | (d & Hd & He & Hraise)].
  - rewrite Hdone. intros Hrun.
    destruct (IH _ Hrun) as (skipped & url' & d & rest & -> & Hall & Hd & He & -> & ->).
    exists (url :: skipped), url', d, rest. split; [reflexivity|].
    split; [|auto]. constructor; [|assumption].
    intros d' Hd' He'. rewrite (scrape_page_raises url d' st Hd' He') in Hdone.
    discriminate.
  - rewrite Hraise. intros [= <- <-]. exists [], url, d, urls.
    split; [reflexivity|]. split; [constructor|]. auto.
Qed.

(** X12: when [main] stops with [KeyError] on [prereqs], it does so at the
    first candidate, in the order of the loop, whose page yields a record
    that passes line 193: the candidates before it were requested and
    dropped, the ones after it are never requested, and the one record held
    names that candidate as its source. *)
Theorem main_raises_at_first_record (starting_urls : list string) (fuel : nat) :
  (main_from starting_urls fuel).1 = Raised (KeyError "prereqs") ->
  let st1 := (crawl fuel (initial starting_urls)).2 in
  exists skipped url d rest,
    iter (course_urls_to_scrape st1) = skipped ++ url :: rest
    /\ Forall (fun u => forall d', record_of u = Some d' -> ~ Spec.emittable d') skipped
    /\ record_of url = Some d /\ Spec.emittable d /\ d !! "source" = Some url
    /\ all_prereqs (main_from starting_urls fuel).2 = [d]
    /\ requested (main_from starting_urls fuel).2 = requested st1 ++ skipped ++ [url].
Proof.
  intros Hraised st1. subst st1. revert Hraised. rewrite main_from_unfold.
  destruct (crawl_frame fuel (initial starting_urls)) as [Hrec _].
  pose proof (crawl_never_raises fuel (initial starting_urls)) as Hnever.
  destruct (crawl fuel (initial starting_urls)) as [r1 st1]. simpl in *.
  destruct r1 as [[]|e1|];
    [|exfalso; apply (Hnever e1); reflexivity|discriminate].
  destruct (for_each (iter (course_urls_to_scrape st1)) scrape_page st1)
    as [r2 st2] eqn:Hloop.
  destruct r2 as [[]|e2|]; simpl; [discriminate| |discriminate].
  intros _.
  destruct (scrape_loop_raised _ _ _ _ Hloop)
    as (skipped & url & d & rest & Heq & Hall & Hd & He & _ & ->).
  exists skipped, url, d, rest. rewrite foldl_log_state. simpl. rewrite Hrec.
  destruct (record_of_is_record url d Hd) as (title & prereqs & ->).
  split; [exact Heq|]. split; [exact Hall|]. split; [exact Hd|]. split; [exact He|].
  split; [|auto]. unfold record.
  now rewrite !lookup_insert_ne, lookup_insert_eq by discriminate.
Qed.

End Run.

Lemma elements_enumerates : Spec.enumerates elements.
Proof.
  intros X. split; [apply NoDup_elements|]. intros x. apply elem_of_elements.
Qed.

Lemma fetched_once_per_stage_witness :
  let run := Scraper.main World.catalog World.parse World.urljoin elements 10 in
  let st1 := (Scraper.crawl World.catalog World.parse World.urljoin elements 10
                (initial STARTING_URLS)).2 in
  NoDup (requested st1)
  /\ exists scraped,
       requested run.2 = requested st1 ++ scraped
       /\ NoDup scraped
       /\ forall url, url ∈ scraped -> url ∈ course_urls_to_scrape st1.
Proof.
  apply (fetched_once_per_stage World.catalog World.parse World.urljoin elements
           STARTING_URLS 10 elements_enumerates).
  apply (bool_decide_unpack _). vm_compute. exact I.
Defined.

(** C3 as stated fails: a candidate on the host of the page that links to
    it is requested by the traversal and again by the scraping loop. *)
Lemma candidate_is_fetched_twice :
  let st := (Scraper.main World.catalog World.parse World.urljoin elements 10).2 in
  requested st = STARTING_URLS ++ [World.algorithms; World.algorithms]
  /\ ~ NoDup (requested st).
Proof.
  intros st. assert (Hreq : requested st = STARTING_URLS ++ [World.algorithms; World.algorithms])
    by (vm_compute; reflexivity).
  split; [exact Hreq|]. rewrite Hreq. intros Hnodup.
  apply NoDup_app in Hnodup as (_ & _ & Hnodup).
  apply NoDup_cons in Hnodup as [Hnotin _]. apply Hnotin. left.
Qed.

Lemma starting_urls_nodup : NoDup STARTING_URLS.
Proof. apply (bool_decide_unpack _). vm_compute. exact I. Qed.

(** C1 fails on the code: with two course pages that both state their
    prerequisites, [main] appends the first record and then raises
    [KeyError] on the key [prereqs]; the second candidate is never scraped
    and nothing is written. *)
Theorem main_stops_at_first_record :
  let run := Scraper.main World.two_courses World.parse World.urljoin elements 10 in
  run.1 = Raised (KeyError "prereqs")
  /\ course_urls_to_scrape run.2 = {[World.algorithms; World.data_structures]}
  /\ record_of World.two_courses World.parse World.data_structures
     = Some (record "Data Structures" "CS 101" World.data_structures)
  /\ all_prereqs run.2
     = [record "Intro to Algorithms" "CS 101, MATH 201" World.algorithms]
  /\ requested run.2
     = STARTING_URLS ++ [World.algorithms; World.data_structures] ++ [World.algorithms]
  /\ dumped run.2 = [].
Proof. repeat split; vm_compute; reflexivity. Qed.

Lemma only_emittable_records_kept_witness :
  let run := Scraper.main World.catalog World.parse World.urljoin elements 10 in
  let st := initial STARTING_URLS in
  Forall Spec.emittable (all_prereqs run.2)
  /\ all_prereqs run.2
     = [record "Intro to Algorithms" "CS 101, MATH 201" World.algorithms]
  /\ Scraper.scrape_page World.silent World.parse World.algorithms st
     = (Done tt, log_request World.algorithms st).
Proof.
  intros run st.
  pose proof (only_emittable_records_kept World.catalog World.parse World.urljoin
                elements STARTING_URLS 10) as (Hkept & _ & _).
  pose proof (only_emittable_records_kept World.silent World.parse World.urljoin
                elements STARTING_URLS 10) as (_ & _ & Hdrop).
  split; [exact Hkept|]. split; [vm_compute; reflexivity|].
  apply (Hdrop World.algorithms (record "Seminar" "Not specified" World.algorithms) st).
  - vm_compute. reflexivity.
  - intros [_ Hp]. apply Hp. vm_compute. reflexivity.
Defined.

Lemma offsite_links_are_not_followed_witness :
  let st1 := (Scraper.crawl World.catalog World.parse World.urljoin elements 10
                (initial STARTING_URLS)).2 in
  Spec.at_seed_location STARTING_URLS World.algorithms
  /\ World.algorithms ∈ course_urls_to_scrape st1.
Proof.
  intros st1.
  pose proof (offsite_links_are_not_followed World.catalog World.parse World.urljoin
                elements 10 elements_enumerates) as (_ & Hloc & Hcand).
  split.
  - apply Hloc. vm_compute. do 4 right. left.
  - apply (Hcand World.curriculum World.curriculum_html World.algorithms).
    + vm_compute. do 3 right. left.
    + vm_compute. reflexivity.
    + discriminate.
    + vm_compute. reflexivity.
    + apply found_occurs. vm_compute. reflexivity.
Defined.

(** C4 as stated fails: a link to the same host over another scheme is
    queued and then fetched. *)
Lemma other_scheme_is_followed :
  let st := set_queue [] (initial STARTING_URLS) in
  Spec.domain World.plain_http <> Spec.domain World.curriculum
  /\ World.plain_http
       ∈ Scraper.find_course_links World.parse World.urljoin World.offsite_html
           World.curriculum
  /\ queue (discover World.curriculum World.plain_http st).2 = [World.plain_http]
  /\ requested (Scraper.main World.mixed_scheme World.parse World.urljoin elements 10).2
     = STARTING_URLS ++ [World.plain_http].
Proof.
  intros st. split; [vm_compute; discriminate|].
  repeat split; vm_compute; reflexivity.
Qed.

Lemma seeds_are_never_candidates_witness :
  let st1 := (Scraper.crawl World.catalog World.parse World.urljoin elements 10
                (initial World.coded_seeds)).2 in
  found Pat.code_like World.algorithms = true
  /\ World.algorithms
       ∈ Scraper.find_course_links World.parse World.urljoin World.curriculum_html
           World.curriculum
  /\ World.algorithms ∉ course_urls_to_scrape st1.
Proof.
  intros st1. split; [vm_compute; reflexivity|]. split; [vm_compute; reflexivity|].
  apply (seeds_are_never_candidates World.catalog World.parse World.urljoin elements
           World.coded_seeds 10 elements_enumerates).
  left.
Defined.

Lemma failed_fetch_is_skipped_witness :
  let st := initial STARTING_URLS in
  Scraper.get_html World.offline World.curriculum st
  = (Done None, log_request World.curriculum st).
Proof.
  intros st.
  apply (failed_fetch_is_skipped World.offline World.parse World.urljoin elements
           World.curriculum).
  left. reflexivity.
Defined.

(** C8 as stated fails: an answer with a status outside 200..299 for which
    [raise_for_status] does not raise is served as a page, and the
    traversal follows its links. *)
Lemma unredirected_status_is_served :
  let st1 := (Scraper.crawl World.multiple_choices World.parse World.urljoin elements 10
                (initial STARTING_URLS)).2 in
  World.multiple_choices World.curriculum = Http 300 World.curriculum_html
  /\ Spec.non_2xx 300
  /\ (Scraper.get_html World.multiple_choices World.curriculum (initial STARTING_URLS)).1
     = Done (Some World.curriculum_html)
  /\ requested st1 = STARTING_URLS ++ [World.algorithms]
  /\ course_urls_to_scrape st1 = {[World.algorithms]}.
Proof.
  intros st1. split; [reflexivity|]. split; [unfold Spec.non_2xx; lia|].
  repeat split; vm_compute; reflexivity.
Qed.


Lemma crawl_terminates_witness :
  let U : gset string := list_to_set (STARTING_URLS ++ [World.algorithms]) in
  (Scraper.crawl World.catalog World.parse World.urljoin elements (S (size U))
     (initial STARTING_URLS)).1 = Done tt
  /\ queue (Scraper.crawl World.catalog World.parse World.urljoin elements (S (size U))
              (initial STARTING_URLS)).2 = [].
Proof.
  intros U.
  apply (crawl_terminates World.catalog World.parse World.urljoin elements U
           STARTING_URLS starting_urls_nodup).
  - intros s Hs. apply elem_of_list_to_set, elem_of_app. now left.
  - intros url link. unfold Scraper.links_of, World.catalog.
    destruct (decide (url = World.curriculum)) as [->|_].
    + intros Hlink. vm_compute in Hlink. apply list_elem_of_singleton in Hlink as ->.
      apply elem_of_list_to_set, elem_of_app. right. left.
    + destruct (decide (url = World.algorithms)) as [->|_].
      * intros Hlink. vm_compute in Hlink. now apply elem_of_nil in Hlink.
      * intros Hlink. now apply elem_of_nil in Hlink.
Defined.

Lemma candidates_are_the_coded_links_witness :
  let st1 := (Scraper.crawl World.two_courses World.parse World.urljoin elements 10
                (initial STARTING_URLS)).2 in
  World.data_structures ∈ course_urls_to_scrape st1
  /\ World.curriculum ∉ course_urls_to_scrape st1.
Proof.
  intros st1.
  pose proof (candidates_are_the_coded_links World.two_courses World.parse World.urljoin
                elements STARTING_URLS 10 elements_enumerates) as Hcands.
  split.
  - apply Hcands. split; [vm_compute; intros H; repeat (apply elem_of_cons in H as [H|H];
                                                         [discriminate|]);
                          now apply elem_of_nil in H|].
    split; [apply code_like_two_digits, found_occurs; vm_compute; reflexivity|].
    exists World.curriculum, World.two_courses_html.
    split; [vm_compute; do 3 right; left|]. split; [vm_compute; reflexivity|].
    split; [discriminate | vm_compute; reflexivity].
  - intros Hin. apply Hcands in Hin as (Hns & _). apply Hns. do 3 right. left.
Defined.

Lemma passed_over_is_never_fetched_witness :
  let elsewhere := "https://ocw.mit.edu/courses/18-06/" in
  let st := (discover World.curriculum elsewhere
               (set_queue [World.curriculum] (initial STARTING_URLS))).2 in
  More.passed_over elsewhere st
  /\ elsewhere
       ∉ requested (Scraper.crawl World.catalog World.parse World.urljoin elements 10 st).2.
Proof.
  intros elsewhere st.
  pose proof (passed_over_is_never_fetched World.catalog World.parse World.urljoin
                elements elsewhere) as [Hpass Hnever].
  assert (Hst : More.passed_over elsewhere st).
  { apply Hpass.
    - split; simpl.
      + apply NoDup_singleton.
      + intros url Hurl. apply list_elem_of_singleton in Hurl as ->.
        vm_compute. reflexivity.
    - vm_compute. discriminate.
    - vm_compute. discriminate. }
  split; [exact Hst | now apply Hnever].
Defined.


Lemma trailing_slash_page_is_dropped_witness :
  let web := fun _ : string => Http 200 "<p>Prerequisites: CS 101.</p>" in
  let parse := fun _ : string => [Tag "p" ∅ [Text "Prerequisites: CS 101."]] in
  let url := "https://www.bmsce.ac.in/courses/101" in
  prereq_text (parse "") = Some "CS 101"
  /\ course_title (url +:+ "/") (parse "") = ""
  /\ Scraper.scrape_page web parse (url +:+ "/") (initial STARTING_URLS)
     = (Done tt, log_request (url +:+ "/") (initial STARTING_URLS)).
Proof.
  intros web parse url. split; [vm_compute; reflexivity|].
  apply (trailing_slash_page_is_dropped web parse World.urljoin url
           "<p>Prerequisites: CS 101.</p>"
           (initial STARTING_URLS));
    [reflexivity | discriminate | vm_compute; reflexivity | vm_compute; reflexivity].
Defined.


Lemma visited_are_the_seeds_and_links_witness :
  let st1 := (Scraper.crawl World.mixed_scheme World.parse World.urljoin elements 10
                (initial STARTING_URLS)).2 in
  World.plain_http ∈ visited_urls st1.
Proof.
  intros st1.
  apply (visited_are_the_seeds_and_links World.mixed_scheme World.parse World.urljoin
           elements STARTING_URLS 10 elements_enumerates).
  right. exists World.curriculum, World.offsite_html.
  split; [vm_compute; do 3 right; left|]. split; [vm_compute; reflexivity|].
  split; [discriminate | vm_compute; reflexivity].
Defined.

Lemma main_raises_at_first_record_witness :
  let st1 := (Scraper.crawl World.two_courses World.parse World.urljoin elements 10
                (initial STARTING_URLS)).2 in
  let run := Scraper.main World.two_courses World.parse World.urljoin elements 10 in
  exists skipped url d rest,
    elements (course_urls_to_scrape st1) = skipped ++ url :: rest
    /\ Forall (fun u => forall d', record_of World.two_courses World.parse u = Some d'
                                   -> ~ Spec.emittable d') skipped
    /\ record_of World.two_courses World.parse url = Some d
    /\ Spec.emittable d /\ d !! "source" = Some url
    /\ all_prereqs run.2 = [d]
    /\ requested run.2 = requested st1 ++ skipped ++ [url].
Proof.
  apply (main_raises_at_first_record World.two_courses World.parse World.urljoin elements
           STARTING_URLS 10).
  vm_compute. reflexivity.
Defined.

End OrchestratorFacts.

(** ** The session of [chatbot.py] and the file [main] leaves behind *)

Module SessionFacts.
Import StrFacts Scraper Chatbot Session ChatbotFacts OrchestratorFacts.

Lemma converse_bye (data : list dict) (line : string) (rest : list string) :
  Str.lower (Str.strip line) ∈ ["exit"; "quit"] ->
  converse data (line :: rest) = ([prompt; "Goodbye!"], Returned, rest).
Proof. intros Hbye. simpl. now rewrite bool_decide_eq_true_2. Qed.

Lemma converse_query (data : list dict) (line answer : string) (rest : list string) :
  is_query line ->
  find_prerequisites (Str.strip line) data = inr answer ->
  converse data (line :: rest)
  = let '(out, e, unread) := converse data rest in
    (prompt :: [answer] ++ out, e, unread).
Proof.
  intros [Hne Hcmd] Hfind. simpl.
  rewrite bool_decide_eq_false_2
    by (intros Hin; apply Hcmd; rewrite !elem_of_cons in *; tauto).
  rewrite decide_False by (intros Heq; apply Hcmd; rewrite Heq; do 2 right; left).
  apply nonempty_true in Hne. rewrite Hne, Hfind. reflexivity.
Qed.

Lemma converse_answers (data : list dict) (queries : list string) (bye : string)
    (rest : list string) :
  Forall (fun d => is_Some (d !! "title")) data ->
  Forall is_query queries ->
  Str.lower (Str.strip bye) ∈ ["exit"; "quit"] ->
  exists answers,
    Forall2 (fun line answer => find_prerequisites (Str.strip line) data = inr answer)
            queries answers
    /\ converse data (queries ++ bye :: rest)
       = (concat (map (fun answer => [prompt; answer]) answers) ++ [prompt; "Goodbye!"],
          Returned, rest).
Proof.
  intros Hdata Hqueries Hbye. induction Hqueries as [|line queries Hline _ IH].
  - exists []. split; [constructor|]. now apply converse_bye.
  - destruct IH as (answers & Hall & Hrun).
    destruct (find_prerequisites_answers (Str.strip line) data Hdata) as [answer Hanswer].
    exists (answer :: answers). split; [now constructor|].
    change ((line :: queries) ++ bye :: rest) with (line :: (queries ++ bye :: rest)).
    rewrite (converse_query data line answer _ Hline Hanswer), Hrun. reflexivity.
Qed.

(** X17: over a dataset that is not empty and whose records all carry a
    title, a session of queries closed by [exit] or [quit] prints, after
    the two opening lines, the answer of the lookup to each query in turn
    and then the farewell; it returns, and what was typed after the closing
    word is left unread. *)
Theorem session_answers_each_query (data : list dict) (queries : list string)
    (bye : string) (rest : list string) :
  data <> [] ->
  Forall (fun d => is_Some (d !! "title")) data ->
  Forall is_query queries ->
  Str.lower (Str.strip bye) ∈ ["exit"; "quit"] ->
  exists answers,
    Forall2 (fun line answer => find_prerequisites (Str.strip line) data = inr answer)
            queries answers
    /\ run_chatbot (Some data) (queries ++ bye :: rest)
       = ("Loading course data..."
            :: [ "Data loaded successfully. Ask me about course prerequisites!";
                 "You can also type 'list' to see all available courses or 'exit' to end the session." ]
            ++ concat (map (fun answer => [prompt; answer]) answers)
            ++ [prompt; "Goodbye!"],
          Returned, rest).
Proof.
  intros Hne Hdata Hqueries Hbye.
  destruct (converse_answers data queries bye rest Hdata Hqueries Hbye)
    as (answers & Hall & Hrun).
  exists answers. split; [exact Hall|].
  unfold run_chatbot, load_data. destruct data as [|d data]; [contradiction|].
  rewrite Hrun. reflexivity.
Qed.

Lemma session_answers_each_query_witness :
  exists answers,
    Forall2 (fun line answer => find_prerequisites (Str.strip line) World.twice = inr answer)
            ["  Intro to algorithms "; "compilers"] answers
    /\ run_chatbot (Some World.twice)
         (["  Intro to algorithms "; "compilers"] ++ " EXIT" :: ["list"])
       = ("Loading course data..."
            :: [ "Data loaded successfully. Ask me about course prerequisites!";
                 "You can also type 'list' to see all available courses or 'exit' to end the session." ]
            ++ concat (map (fun answer => [prompt; answer]) answers)
            ++ [prompt; "Goodbye!"],
          Returned, ["list"]).
Proof.
  apply (session_answers_each_query World.twice
           ["  Intro to algorithms "; "compilers"] " EXIT" ["list"]).
  - discriminate.
  - repeat constructor; vm_compute; eauto.
  - repeat constructor; try (vm_compute; discriminate);
      vm_compute; intros H; repeat (apply elem_of_cons in H as [H|H]; [discriminate|]);
      now apply elem_of_nil in H.
  - vm_compute. left.
Defined.

(** X15: a record without a title ends the session. A query that no
    earlier record answers makes the lookup raise [KeyError], which
    [run_chatbot] does not catch: nothing is printed for the query and the
    rest of the input is left unread. *)
Theorem session_ends_on_untitled_record (data before after : list dict) (course : dict)
    (line : string) (rest : list string) :
  data = before ++ course :: after ->
  course !! "title" = None ->
  Forall (fun d => exists t, d !! "title" = Some t
                             /\ Str.lower t <> Str.lower (Str.strip line)) before ->
  is_query line ->
  run_chatbot (Some data) (line :: rest)
  = ([ "Loading course data...";
       "Data loaded successfully. Ask me about course prerequisites!";
       "You can also type 'list' to see all available courses or 'exit' to end the session.";
       prompt ], Crashed (KeyError "title"), rest).
Proof.
  intros -> Hnone Hbefore [Hne Hcmd].
  assert (Hfind : find_prerequisites (Str.strip line) (before ++ course :: after)
                  = inl (KeyError "title")).
  { apply find_prerequisites_key_error. now exists before, course, after. }
  assert (Hrun : converse (before ++ course :: after) (line :: rest)
                 = ([prompt], Crashed (KeyError "title"), rest)).
  { simpl.
    rewrite bool_decide_eq_false_2
      by (intros Hin; apply Hcmd; rewrite !elem_of_cons in *; tauto).
    rewrite decide_False by (intros Heq; apply Hcmd; rewrite Heq; do 2 right; left).
    apply nonempty_true in Hne. now rewrite Hne, Hfind. }
  unfold run_chatbot, load_data. rewrite Hrun. now destruct before.
Qed.

Lemma session_ends_on_untitled_record_witness :
  let untitled : dict := {["prerequisites" := "CS 101"]} in
  run_chatbot (Some (World.twice ++ [untitled])) ["compilers"; "exit"]
  = ([ "Loading course data...";
       "Data loaded successfully. Ask me about course prerequisites!";
       "You can also type 'list' to see all available courses or 'exit' to end the session.";
       prompt ], Crashed (KeyError "title"), ["exit"]).
Proof.
  intros untitled.
  apply (session_ends_on_untitled_record (World.twice ++ [untitled]) World.twice []
           untitled "compilers" ["exit"]).
  - reflexivity.
  - reflexivity.
  - repeat constructor.
    + exists "Intro To Algorithms". split; [vm_compute; reflexivity | vm_compute; discriminate].
    + exists "intro to algorithms". split; [vm_compute; reflexivity | vm_compute; discriminate].
  - split; [vm_compute; discriminate|].
    vm_compute. intros H. repeat (apply elem_of_cons in H as [H|H]; [discriminate|]).
    now apply elem_of_nil in H.
Defined.

Section AfterMain.
Variable requests_get : string -> response.
Variable parse : string -> Soup.soup.
Variable urljoin : string -> string -> string.
Variable iter : gset string -> list string.

(** X16: started where no data file exists, [main] never leaves a file the
    chatbot can work with. When [main] returns, the file holds an empty
    list and [run_chatbot] returns after its first line; when [main] is
    cut short or raises, there is no file and [run_chatbot] returns after
    the two lines that tell so. In neither case is a line of input read. *)
Theorem chatbot_after_main_reads_nothing (starting_urls : list string) (fuel : nat)
    (inputs : list string) :
  let run := Scraper.main_from requests_get parse urljoin iter starting_urls fuel in
  (run.1 = Done tt
   /\ file_after run.2 = Some []
   /\ run_chatbot (file_after run.2) inputs = (["Loading course data..."], Returned, inputs))
  \/ (run.1 <> Done tt
      /\ file_after run.2 = None
      /\ run_chatbot (file_after run.2) inputs
         = ([ "Loading course data...";
              "Error: Data file not found at data/prereqs.json";
              "Please run scraper.py first to generate the data." ], Returned, inputs)).
Proof.
  intros run. subst run. unfold file_after.
  destruct (main_from_cases requests_get parse urljoin iter
              starting_urls fuel)
    as [(Hr & _ & Hd) | [(Hr & _ & Hd) | (Hr & _ & Hd)]]; rewrite Hd, Hr.
  - right. split; [discriminate|]. split; reflexivity.
  - left. split; [reflexivity|]. split; reflexivity.
  - right. split; [discriminate|]. split; reflexivity.
Qed.
End AfterMain.

End SessionFacts.

(** ** The prerequisites cell of [process_courses.py] *)

Module ConverterFacts.
Import Re StrFacts ReFacts StrMore Converter.

Lemma pieces_of_cons (r : regex) (c : ascii) (s : string) (pieces : list string) :
  match_here r (String c s) = None ->
  pieces_of r s pieces ->
  exists piece rest, pieces = piece :: rest
                     /\ pieces_of r (String c s) (String c piece :: rest).
Proof.
  intros Hnone Hp.
  assert (Hhead : forall gap, ~ occurs r gap -> forall tail, s = gap +:+ tail ->
                  ~ occurs r (String c gap)).
  { intros gap Hgap tail -> Ho. apply occurs_cons in Ho as [(m & rest & Heq & Hm) | Ho];
      [|contradiction].
    apply (match_here_None r m (rest +:+ tail)) in Hm. apply Hm.
    rewrite <- app_assoc, <- Heq. exact Hnone. }
  destruct Hp as [s Hs | gap m rest pieces Hgap Hm Hp].
  - exists s, []. split; [reflexivity|]. constructor.
    apply (Hhead s Hs ""). now rewrite app_empty_r.
  - exists gap, pieces. split; [reflexivity|].
    change (String c (gap +:+ m +:+ rest)) with (String c gap +:+ m +:+ rest).
    constructor; [|assumption..]. now apply (Hhead gap Hgap (m +:+ rest)).
Qed.

Lemma split_fuel_pieces (r : regex) :
  ~ matches r "" ->
  forall fuel s, String.length s < fuel -> pieces_of r s (split_fuel fuel r s).
Proof.
  intros Hne fuel. induction fuel as [|fuel IH]; intros s Hlen; [lia|]. simpl.
  assert (Hstep : match_here r s = None ->
                  pieces_of r s
                    match s with
                    | "" => [""]
                    | String c s' =>
                        match split_fuel fuel r s' with
                        | piece :: pieces => String c piece :: pieces
                        | [] => [String c ""]
                        end
                    end).
  { intros Hnone. destruct s as [|c s].
    - constructor. intros Ho. now apply occurs_empty in Ho.
    - destruct (pieces_of_cons r c s (split_fuel fuel r s) Hnone)
        as (piece & rest & -> & Hp); [|exact Hp].
      apply IH. simpl in Hlen. lia. }
  destruct (match_here r s) as [[[|c m] rest]|] eqn:Hm.
  - apply match_here_Some in Hm as [_ Hm]. contradiction.
  - apply match_here_Some in Hm as [-> Hm].
    apply (pieces_next r "" (String c m) rest).
    + intros Ho. now apply occurs_empty in Ho.
    + assumption.
    + apply IH. rewrite length_app in Hlen. simpl in Hlen. lia.
  - now apply Hstep.
Qed.

(** For a pattern that matches no empty string, [re.split] cuts the text
    at successive matches and leaves no match in any piece. *)
Lemma split_pieces (r : regex) (s : string) :
  ~ matches r "" -> pieces_of r s (split r s).
Proof. intros Hne. apply split_fuel_pieces; [assumption | lia]. Qed.

Lemma pieces_of_elem (r : regex) (s : string) (pieces : list string) (piece : string) :
  pieces_of r s pieces -> piece ∈ pieces ->
  ~ occurs r piece /\ More.substring piece s.
Proof.
  intros Hp. induction Hp as [s Hs | gap m rest pieces Hgap Hm Hp IH]; intros Hin.
  - apply list_elem_of_singleton in Hin as ->. split; [assumption|].
    exists "", "". simpl. now rewrite app_empty_r.
  - apply elem_of_cons in Hin as [-> | Hin].
    + split; [assumption|]. exists "", (m +:+ rest). reflexivity.
    + destruct (IH Hin) as [Hno (pre & post & ->)]. split; [assumption|].
      exists (gap +:+ m +:+ pre), post. now rewrite !app_assoc.
Qed.

Lemma separators_nonempty : ~ matches separators "".
Proof.
  intros [(u & v & Heq & (c & -> & _) & _) | (u & v & Heq & (c & -> & _) & _)];
    discriminate.
Qed.

Lemma any_char_split (p : ascii -> bool) (s : string) :
  More.any_char p s = true ->
  exists pre c post, s = pre +:+ String c post /\ p c = true.
Proof.
  induction s as [|c s IH]; simpl; [discriminate|].
  destruct (p c) eqn:Hc; simpl.
  - intros _. exists "", c, s. auto.
  - intros H. destruct (IH H) as (pre & c' & post & -> & Hc').
    exists (String c pre), c', post. auto.
Qed.

Lemma any_char_substring (p : ascii -> bool) (part s : string) :
  More.substring part s -> More.any_char p s = false -> More.any_char p part = false.
Proof.
  intros (pre & post & ->). rewrite !any_char_app.
  intros H. apply orb_false_elim in H as [_ H]. now apply orb_false_elim in H as [H _].
Qed.

Lemma no_separator_no_comma (piece : string) :
  ~ occurs separators piece -> More.any_char comma_or_semicolon piece = false.
Proof.
  intros Hno. destruct (More.any_char comma_or_semicolon piece) eqn:Hany; [|reflexivity].
  exfalso. apply Hno. apply any_char_split in Hany as (pre & c & post & -> & Hc).
  exists pre, (String c ""), post. split; [reflexivity|]. left.
  exists (String c ""), "". split; [reflexivity|].
  split; [exists c; split; [reflexivity | exact Hc] | exact I].
Qed.

(** X18: every prerequisite the converter takes from a cell is a piece of
    the cell that is not empty and holds no comma and no semicolon. *)
Theorem prerequisites_are_clean_pieces (cell prerequisite : string) :
  prerequisite ∈ prerequisites_of cell ->
  prerequisite <> ""
  /\ More.substring prerequisite cell
  /\ More.any_char comma_or_semicolon prerequisite = false.
Proof.
  unfold prerequisites_of.
  destruct (decide (Str.lower (Str.strip cell) = "nan"));
    [intros H; now apply elem_of_nil in H|].
  rewrite list_elem_of_filter, list_elem_of_fmap.
  intros [Hne (piece & -> & Hpiece)].
  destruct (pieces_of_elem _ _ _ piece (split_pieces separators (Str.strip cell)
                                          separators_nonempty) Hpiece) as [Hno Hsub].
  split; [now apply nonempty_true|]. split.
  - apply (substring_trans _ piece); [apply strip_substring|].
    apply (substring_trans _ (Str.strip cell)); [exact Hsub | apply strip_substring].
  - apply (any_char_substring _ _ piece); [apply strip_substring|].
    now apply no_separator_no_comma.
Qed.

Lemma prerequisites_are_clean_pieces_witness :
  prerequisites_of " CS101 and MATH201; PHY 110 " = ["CS101"; "MATH201"; "PHY 110"]
  /\ More.substring "MATH201" " CS101 and MATH201; PHY 110 ".
Proof.
  split; [vm_compute; reflexivity|].
  apply (prerequisites_are_clean_pieces " CS101 and MATH201; PHY 110 " "MATH201").
  vm_compute. right. left.
Defined.

End ConverterFacts.
